(** * EduNote text pipeline: chunker, generation invoker, response parsers

    A shallow embedding of [app/main.py], [edunote_llm/llama_wrapper.py] and
    [app/llama_runner.py].

    - A Python string is a list of Unicode code points; indices are
      unbounded integers, and slicing and searching carry Python's index
      normalisation (negative indices, clamping).
    - [str.lower] and [str.upper] are an interface ([CaseTables]); the
      statements hold for every table, the examples run on the ASCII one.
    - A call returns or raises ([result]); the [while] loop of the chunker
      runs on fuel, and the statements about it say how much fuel is
      enough.
    - The external process and the file system are functions handed to the
      invoker: the argument list goes in, the completed process comes
      out. *)

From Stdlib Require Import String Ascii.
From Stdlib Require Import List ZArith NArith Lia Bool.
From Stdlib Require DecimalString.
Import ListNotations.

Local Open Scope Z_scope.

(** ** Python string primitives *)

Module PyStr.

(** A [str] is a list of code points. *)
Definition str := list N.

(** ASCII literal of the source, as code points. *)
Definition lit (s : string) : str :=
  map N_of_ascii (list_ascii_of_string s).
Arguments lit s%_string.

Definition len (s : str) : Z := Z.of_nat (length s).

Fixpoint str_eqb (a b : str) : bool :=
  match a, b with
  | [], [] => true
  | x :: a', y :: b' => (x =? y)%N && str_eqb a' b'
  | _, _ => false
  end.

Definition is_empty (s : str) : bool :=
  match s with [] => true | _ => false end.

(** [x in xs] for a list of strings. *)
Definition str_in (x : str) (xs : list str) : bool := existsb (str_eqb x) xs.

(** [c in chars] for a character [c]. *)
Definition char_in (chars : str) (c : N) : bool :=
  existsb (N.eqb c) chars.

(** Characters removed by [str.strip()] without argument: the code points for
    which [str.isspace] holds. *)
Definition isspace (c : N) : bool :=
  (((9 <=? c) && (c <=? 13)) || ((28 <=? c) && (c <=? 32))
   || (c =? 133) || (c =? 160) || (c =? 5760)
   || ((8192 <=? c) && (c <=? 8202))
   || (c =? 8232) || (c =? 8233) || (c =? 8239) || (c =? 8287)
   || (c =? 12288))%N.

(** Line boundaries of [str.splitlines]: LF, CR, VT, FF, FS, GS, RS, NEL,
    LS, PS (CR LF counts as one boundary). *)
Definition islinebreak (c : N) : bool :=
  ((c =? 10) || (c =? 13) || (c =? 11) || (c =? 12) || (c =? 28)
   || (c =? 29) || (c =? 30) || (c =? 133) || (c =? 8232) || (c =? 8233))%N.

Fixpoint dropwhile (p : N -> bool) (s : str) : str :=
  match s with
  | [] => []
  | c :: r => if p c then dropwhile p r else s
  end.

Definition lstrip_by (p : N -> bool) (s : str) : str := dropwhile p s.
Definition rstrip_by (p : N -> bool) (s : str) : str :=
  rev (dropwhile p (rev s)).
Definition strip_by (p : N -> bool) (s : str) : str :=
  rstrip_by p (lstrip_by p s).

(** [s.strip()] *)
Definition strip (s : str) : str := strip_by isspace s.
(** [s.strip(chars)] and [s.lstrip(chars)] *)
Definition strip_chars (chars s : str) : str := strip_by (char_in chars) s.
Definition lstrip_chars (chars s : str) : str := lstrip_by (char_in chars) s.

(** [s.startswith(p)] *)
Fixpoint startswith (s p : str) : bool :=
  match p, s with
  | [], _ => true
  | _ :: _, [] => false
  | a :: p', b :: s' => (a =? b)%N && startswith s' p'
  end.

(** [s.startswith((p1, ..., pn))] *)
Definition startswith_any (s : str) (ps : list str) : bool :=
  existsb (startswith s) ps.

(** [s.endswith(p)] *)
Definition endswith (s p : str) : bool := startswith (rev s) (rev p).

(** [sub in s] *)
Fixpoint contains (sub s : str) : bool :=
  startswith s sub ||
  match s with
  | [] => false
  | _ :: r => contains sub r
  end.

(** Index normalisation shared by slicing and by [find]/[rfind]: a negative
    index counts from the end and is clamped at 0. *)
Definition adjust_low (n i : Z) : Z :=
  if i <? 0 then Z.max 0 (i + n) else i.

(** Slice bound: additionally clamped at the length. *)
Definition adjust_slice (n i : Z) : Z := Z.min n (adjust_low n i).

(** [s[i:j]] *)
Definition slice (s : str) (i j : Z) : str :=
  let a := adjust_slice (len s) i in
  let b := adjust_slice (len s) j in
  firstn (Z.to_nat (b - a)) (skipn (Z.to_nat a) s).

(** Candidates [lo + n - 1], ..., [lo], highest first. *)
Fixpoint rfind_from (s sub : str) (lo : Z) (n : nat) : Z :=
  match n with
  | O => -1
  | S n' =>
      if startswith (skipn (Z.to_nat (lo + Z.of_nat n')) s) sub
      then lo + Z.of_nat n'
      else rfind_from s sub lo n'
  end.

(** [s.rfind(sub, start, end)]: the highest index of an occurrence of [sub]
    lying inside [s[start:end]], or -1. *)
Definition rfind (s sub : str) (start end_ : Z) : Z :=
  let e := adjust_slice (len s) end_ in
  let b := adjust_low (len s) start in
  if e - b <? len sub then -1
  else rfind_from s sub b (Z.to_nat (e - b - len sub + 1)).

(** [s.splitlines()]; [cur] is the line being read. *)
Fixpoint splitlines_from (cur s : str) : list str :=
  match s with
  | [] => match cur with [] => [] | _ => [cur] end
  | c :: r =>
      if (c =? 13)%N then
        match r with
        | c' :: r' =>
            if (c' =? 10)%N then cur :: splitlines_from [] r'
            else cur :: splitlines_from [] r
        | [] => cur :: splitlines_from [] r
        end
      else if islinebreak c then cur :: splitlines_from [] r
      else splitlines_from (cur ++ [c]) r
  end.

Definition splitlines (s : str) : list str := splitlines_from [] s.

(** [s.split(sep, maxsplit)] for a non-empty [sep]; [None] is the default
    (no limit).  [skip] counts the characters of a matched separator that
    are still to be passed over. *)
Definition may_split (k : option nat) : bool :=
  match k with Some O => false | _ => true end.

Definition one_less (k : option nat) : option nat :=
  match k with Some n => Some (pred n) | None => None end.

Fixpoint split_from (sep : str) (k : option nat) (skip : nat) (cur s : str)
  : list str :=
  match s with
  | [] => [cur]
  | c :: r =>
      match skip with
      | S n => split_from sep k n cur r
      | O =>
          if may_split k && startswith s sep
          then cur :: split_from sep (one_less k) (pred (length sep)) [] r
          else split_from sep k O (cur ++ [c]) r
      end
  end.

Definition split (s sep : str) (maxsplit : option nat) : list str :=
  split_from sep maxsplit O [] s.

(** [sep.join(parts)] *)
Fixpoint join (sep : str) (parts : list str) : str :=
  match parts with
  | [] => []
  | [p] => p
  | p :: ps => p ++ sep ++ join sep ps
  end.

(** [s.replace(old, new)] for a one-character [old]. *)
Definition replace_char (old : N) (new s : str) : str :=
  flat_map (fun c => if (c =? old)%N then new else [c]) s.

(** [str(n)] for an integer. *)
Definition str_of_Z (n : Z) : str :=
  lit (DecimalString.NilZero.string_of_int (Z.to_int n)).

(** No character of the class [p] at either end of [s]. *)
Definition trimmed (p : N -> bool) (s : str) : Prop :=
  match s with [] => True | c :: _ => p c = false end /\
  match rev s with [] => True | c :: _ => p c = false end.

(** [s[j] == c], for an index inside the string. *)
Definition char_at (s : str) (j : Z) (c : N) : Prop :=
  nth_error s (Z.to_nat j) = Some c.

End PyStr.

Import PyStr.

(** ** Outcomes *)

(** The exceptions the pipeline can raise. *)
Inductive exn : Type :=
| HTTPException (status_code : Z) (detail : str)
| RuntimeError (msg : str)
| FileNotFoundError (msg : str)
| ValueError (msg : str)
| IndexError.

(** A call either returns a value or raises. *)
Inductive result (A : Type) : Type :=
| Ok (a : A)
| Raise (e : exn).
Arguments Ok {A} a.
Arguments Raise {A} e.

Definition bind {A B} (r : result A) (k : A -> result B) : result B :=
  match r with
  | Ok a => k a
  | Raise e => Raise e
  end.

Notation "x <- c ;; k" := (bind c (fun x => k))
  (at level 61, c at next level, right associativity).

(** ** Chunker ([simple_chunk_text], app/main.py) *)

Module Chunker.

Definition newline : str := [10%N].
Definition period : str := lit ".".

(** Lines 75-80: the split index chosen for the cursor [start]. *)
Definition split_point (text : str) (max_chars start : Z) : Z :=
  let L := len text in
  let end_ := Z.min (start + max_chars) L in
  let split_index := rfind text newline start end_ in
  let split_index :=
    if split_index <=? start then rfind text period start end_
    else split_index in
  if split_index <=? start then end_ else split_index.

(** Lines 74-82: the [while start < L] loop.  Each unit of fuel pays for one
    iteration; [None] means the fuel ran out before the loop condition
    failed. *)
Fixpoint chunk_loop (fuel : nat) (text : str) (max_chars start : Z)
  (chunks : list str) : option (list str) :=
  if start <? len text then
    match fuel with
    | O => None
    | S fuel' =>
        let split_index := split_point text max_chars start in
        chunk_loop fuel' text max_chars split_index
          (chunks ++ [strip (slice text start split_index)])
    end
  else Some chunks.

(** The cursor intervals [(start, split_index)] visited by the same loop. *)
Fixpoint chunk_bounds (fuel : nat) (text : str) (max_chars start : Z)
  : option (list (Z * Z)) :=
  if start <? len text then
    match fuel with
    | O => None
    | S fuel' =>
        let split_index := split_point text max_chars start in
        option_map (cons (start, split_index))
          (chunk_bounds fuel' text max_chars split_index)
    end
  else Some [].

Definition simple_chunk_text_fuel (fuel : nat) (text : str) (max_chars : Z)
  : option (list str) :=
  let text := strip text in
  match text with
  | [] => Some []
  | _ => chunk_loop fuel text max_chars 0 []
  end.

(** [simple_chunk_text(text, max_chars)], run for as many iterations as the
    trimmed text has characters, which is enough for every positive
    [max_chars] ([simple_chunk_run] below). *)
Definition simple_chunk_text (text : str) (max_chars : Z) : option (list str) :=
  simple_chunk_text_fuel (length (strip text)) text max_chars.

(** The cursor intervals of [simple_chunk_text]. *)
Definition simple_chunk_bounds_fuel (fuel : nat) (text : str) (max_chars : Z)
  : option (list (Z * Z)) :=
  let text := strip text in
  match text with
  | [] => Some []
  | _ => chunk_bounds fuel text max_chars 0
  end.

Definition simple_chunk_bounds (text : str) (max_chars : Z)
  : option (list (Z * Z)) :=
  simple_chunk_bounds_fuel (length (strip text)) text max_chars.

(** The chunk emitted for a cursor interval (line 81). *)
Definition chunk_of (text : str) (b : Z * Z) : str :=
  strip (slice text (fst b) (snd b)).

(** The untrimmed slice of a cursor interval. *)
Definition slice_of (text : str) (b : Z * Z) : str :=
  slice text (fst b) (snd b).

(** Intervals that follow one another from [lo] to [hi], each non-empty. *)
Inductive chain : Z -> list (Z * Z) -> Z -> Prop :=
| chain_nil : forall lo, chain lo [] lo
| chain_cons : forall lo mid hi bs,
    lo < mid -> chain mid bs hi -> chain lo ((lo, mid) :: bs) hi.

(** The rule for the end [b] of an interval that starts at the cursor [a],
    with [e] the end of the window: the last line break in the open range
    [(a, e)]; when there is none, the last full stop in it; when there is
    none either, [e]. *)
Definition cut_rule (text : str) (max_chars : Z) (ab : Z * Z) : Prop :=
  let '(a, b) := ab in
  let e := Z.min (a + max_chars) (len text) in
  (a < b < e /\ char_at text b 10 /\
   forall j, b < j < e -> ~ char_at text j 10) \/
  ((forall j, a < j < e -> ~ char_at text j 10) /\
   a < b < e /\ char_at text b 46 /\
   forall j, b < j < e -> ~ char_at text j 46) \/
  ((forall j, a < j < e -> ~ char_at text j 10 /\ ~ char_at text j 46) /\
   b = e).

End Chunker.

(** ** Case mapping *)

(** [str.lower] and [str.upper] follow the Unicode case tables of the
    interpreter; the model takes them as an interface. *)
Class CaseTables : Type := {
  lower : str -> str;
  upper : str -> str
}.

Definition ascii_lower_char (c : N) : N :=
  if ((65 <=? c) && (c <=? 90))%N then (c + 32)%N else c.
Definition ascii_upper_char (c : N) : N :=
  if ((97 <=? c) && (c <=? 122))%N then (c - 32)%N else c.

(** The case tables restricted to ASCII letters (every other code point is
    kept): what [lower] and [upper] do on ASCII text. *)
Definition ascii_case : CaseTables := {|
  lower := map ascii_lower_char;
  upper := map ascii_upper_char
|}.

(** ** Generation invoker *)

Module Shlex.

(** The lexer of [shlex.split(s)]: POSIX mode, [whitespace_split] set, no
    comment characters, no punctuation characters. *)

Definition whitespace : str := [32; 9; 13; 10]%N.
Definition quotes : str := [39; 34]%N.
Definition escape : str := [92%N].
Definition escapedquotes : str := [34%N].

Inductive lex_state : Type :=
| SBlank             (* state ' ' *)
| SWord              (* state 'a' *)
| SQuote (q : N)     (* state is a quote character *)
| SEscape (e : N).   (* state is the escape character *)

Record lexer : Type := {
  state : lex_state;
  escapedstate : lex_state;
  token : str;
  quoted : bool;
  tokens : list str
}.

Definition initial : lexer :=
  {| state := SBlank; escapedstate := SBlank; token := []; quoted := false;
     tokens := [] |}.

(** [break] out of [read_token] with a token to return: the token is
    delivered and the next call starts with fresh locals. *)
Definition deliver (st : lex_state) (lx : lexer) : lexer :=
  {| state := st; escapedstate := SBlank; token := []; quoted := false;
     tokens := tokens lx ++ [token lx] |}.

Definition has_token (lx : lexer) : bool :=
  negb (is_empty (token lx)) || quoted lx.

(** One character read by [read_token].  In the blank state the
    [wordchars] branch and the [whitespace_split] branch make the same
    assignment, so they are one case here. *)
Definition lex_char (lx : lexer) (c : N) : lexer :=
  match state lx with
  | SBlank =>
      if char_in whitespace c then
        if has_token lx then deliver SBlank lx else lx
      else if char_in escape c then
        {| state := SEscape c; escapedstate := SWord; token := token lx;
           quoted := quoted lx; tokens := tokens lx |}
      else if char_in quotes c then
        {| state := SQuote c; escapedstate := escapedstate lx;
           token := token lx; quoted := quoted lx; tokens := tokens lx |}
      else
        {| state := SWord; escapedstate := escapedstate lx; token := [c];
           quoted := quoted lx; tokens := tokens lx |}
  | SQuote q =>
      if (c =? q)%N then
        {| state := SWord; escapedstate := escapedstate lx;
           token := token lx; quoted := true; tokens := tokens lx |}
      else if char_in escape c && char_in escapedquotes q then
        {| state := SEscape c; escapedstate := SQuote q; token := token lx;
           quoted := true; tokens := tokens lx |}
      else
        {| state := SQuote q; escapedstate := escapedstate lx;
           token := token lx ++ [c]; quoted := true; tokens := tokens lx |}
  | SEscape e =>
      let keep :=
        match escapedstate lx with
        | SQuote q => negb (c =? e)%N && negb (c =? q)%N
        | _ => false
        end in
      {| state := escapedstate lx; escapedstate := escapedstate lx;
         token := (if keep then token lx ++ [e] else token lx) ++ [c];
         quoted := quoted lx; tokens := tokens lx |}
  | SWord =>
      if char_in whitespace c then
        if has_token lx then deliver SBlank lx
        else {| state := SBlank; escapedstate := escapedstate lx;
                token := token lx; quoted := quoted lx; tokens := tokens lx |}
      else if char_in quotes c then
        {| state := SQuote c; escapedstate := escapedstate lx;
           token := token lx; quoted := quoted lx; tokens := tokens lx |}
      else if char_in escape c then
        {| state := SEscape c; escapedstate := SWord; token := token lx;
           quoted := quoted lx; tokens := tokens lx |}
      else
        {| state := SWord; escapedstate := escapedstate lx;
           token := token lx ++ [c]; quoted := quoted lx;
           tokens := tokens lx |}
  end.

(** End of input: a word being read is returned by this call of
    [read_token]; the call after it returns [None], which ends the
    iteration of [list(lex)].  Inside quotes or after the escape character
    the lexer raises. *)
Definition lex_eof (lx : lexer) : result (list str) :=
  match state lx with
  | SBlank | SWord =>
      if has_token lx then Ok (tokens lx ++ [token lx]) else Ok (tokens lx)
  | SQuote _ => Raise (ValueError (lit "No closing quotation"))
  | SEscape _ => Raise (ValueError (lit "No escaped character"))
  end.

(** [shlex.split(s)] *)
Definition split (s : str) : result (list str) :=
  lex_eof (fold_left lex_char s initial).

(** A character that is neither whitespace, nor a quote, nor the escape. *)
Definition plain (c : N) : bool :=
  negb (char_in whitespace c || char_in quotes c || char_in escape c).

(** [_find_unsafe]: a character outside [\w@%+=:,./-] (ASCII). *)
Definition is_safe (c : N) : bool :=
  (((48 <=? c) && (c <=? 57)) || ((65 <=? c) && (c <=? 90))
   || ((97 <=? c) && (c <=? 122)) || (c =? 95))%N
  || char_in (lit "@%+=:,./-") c.

(** [shlex.quote(s)] *)
Definition quote (s : str) : str :=
  match s with
  | [] => [39; 39]%N
  | _ =>
      if forallb is_safe s then s
      else [39%N] ++ replace_char 39 [39; 34; 39; 34; 39]%N s ++ [39%N]
  end.

End Shlex.

Module Llama.

(** What [subprocess.run(..., capture_output=True, text=True)] returns. *)
Record CompletedProcess : Type := {
  returncode : Z;
  stdout : str;
  stderr : str
}.

(** The operating system seen from the invoker: an argument list is run to
    completion, or the call itself raises. *)
Definition subprocess_run : Type := list str -> result CompletedProcess.

(** A float is used only through [str(x)], which is what is kept of it. *)
Record pyfloat : Type := { float_str : str }.

Definition default_temperature : pyfloat := {| float_str := lit "0.8" |}.
Definition default_top_p : pyfloat := {| float_str := lit "0.95" |}.

(** [LlamaWrapper]: the two resolved paths, as [str(...)] renders them. *)
Record LlamaWrapper : Type := {
  model_path : str;
  binary_path : str
}.

(** [_parse_output], lines 52-57. *)
Fixpoint first_blank_rest (lines : list str) : option (list str) :=
  match lines with
  | [] => None
  | line :: rest =>
      if is_empty (strip line) then Some rest else first_blank_rest rest
  end.

Definition _parse_output (stdout : str) : str :=
  match first_blank_rest (splitlines stdout) with
  | Some rest => strip (join [10%N] rest)
  | None => strip stdout
  end.

(** Lines 29-37: the command list. *)
Definition generate_cmd (self : LlamaWrapper) (prompt : str) (n_predict : Z)
  (temperature : pyfloat) (top_k : Z) (top_p : pyfloat) : list str :=
  [ binary_path self;
    lit "-m"; model_path self;
    lit "-p"; prompt;
    lit "-n"; str_of_Z n_predict;
    lit "--temp"; float_str temperature;
    lit "--top-k"; str_of_Z top_k;
    lit "--top-p"; float_str top_p ].

(** [LlamaWrapper.generate], lines 24-43. *)
Definition generate (run : subprocess_run) (self : LlamaWrapper)
  (prompt : str) (n_predict : Z) (temperature : pyfloat) (top_k : Z)
  (top_p : pyfloat) : result str :=
  let cmd := generate_cmd self prompt n_predict temperature top_k top_p in
  proc <- run cmd ;;
  if negb (returncode proc =? 0) then
    Raise (RuntimeError
             (lit "llama-cli failed (rc=" ++ str_of_Z (returncode proc)
              ++ lit "):" ++ [10%N] ++ stderr proc))
  else Ok (_parse_output (stdout proc)).

(** app/llama_runner.py *)
Definition LLAMA_MAIN_BIN : str := lit "./main".
Definition MODEL_PATH : str := lit "models/tinyllama.gguf".

(** Line 25: the command string. *)
Definition run_llama_cmd (model prompt : str) (n_predict : Z) : str :=
  LLAMA_MAIN_BIN ++ lit " -m " ++ Shlex.quote model
  ++ lit " -p " ++ Shlex.quote prompt ++ lit " -n " ++ str_of_Z n_predict.

(** [run_llama_once], lines 13-30; [path_exists] is the file system's answer
    to [Path(model).exists()]. *)
Definition run_llama_once (path_exists : str -> bool) (run : subprocess_run)
  (prompt : str) (model_path : option str) (n_predict : Z) : result str :=
  let model :=
    match model_path with
    | Some m => if is_empty m then MODEL_PATH else m
    | None => MODEL_PATH
    end in
  if negb (path_exists model) then
    Raise (FileNotFoundError
             (lit "Model file not found at " ++ model
              ++ lit ". Place a quantized model there."))
  else
    argv <- Shlex.split (run_llama_cmd model prompt n_predict) ;;
    result <- run argv ;;
    if negb (returncode result =? 0) then
      Raise (RuntimeError (lit "llama.cpp failed: " ++ strip (stderr result)))
    else Ok (strip (stdout result)).

End Llama.
(** ** Endpoints of app/main.py *)

Module App.

(** A request body: the JSON object seen through [payload.get]. *)
Definition Dict : Type := str -> option str.

Definition dict_get (d : Dict) (key default : str) : str :=
  match d key with
  | Some v => v
  | None => default
  end.

(** The body [{"text": t}]. *)
Definition text_payload (t : str) : Dict :=
  fun key => if str_eqb key (lit "text") then Some t else None.

(** [a or b] on strings. *)
Definition str_or (a b : str) : str := if is_empty a then b else a.

(** [xs[i]] *)
Definition item (xs : list str) (i : nat) : result str :=
  match nth_error xs i with
  | Some x => Ok x
  | None => Raise IndexError
  end.

(** [xs[-1]] *)
Definition last_item (xs : list str) : result str :=
  match xs with
  | [] => Raise IndexError
  | _ => Ok (last xs [])
  end.

Definition dq3 : str := [34; 34; 34]%N.
Definition nl : str := [10%N].

(** [SUMMARY_PROMPT.format(content=c)] *)
Definition SUMMARY_PROMPT (content : str) : str :=
  nl ++ lit "You are EduNote, a study assistant. Summarize the following study notes into 5 concise bullet points and a 2-sentence summary."
  ++ nl ++ nl ++ lit "Notes:" ++ nl ++ dq3 ++ nl ++ content ++ nl ++ dq3
  ++ nl ++ nl ++ lit "Output format:" ++ nl ++ lit "- Bullet 1" ++ nl
  ++ lit "- Bullet 2" ++ nl ++ lit "..." ++ nl
  ++ lit "Summary: <two sentence paragraph>" ++ nl.

(** [QUIZ_PROMPT.format(content=c)] *)
Definition QUIZ_PROMPT (content : str) : str :=
  nl ++ lit "You are EduNote, a study assistant. Create 5 multiple-choice questions from the text below."
  ++ nl ++ lit "Each question should have 4 options labeled A, B, C, D, and mark the correct option with (Answer: X)."
  ++ nl ++ nl ++ lit "Text:" ++ nl ++ dq3 ++ nl ++ content ++ nl ++ dq3 ++ nl.

(** The bound method [llama.generate(prompt, n_predict=n)]. *)
Definition generator : Type := str -> Z -> result str.

(** A handler returns a value, raises, or ([None]) is still inside the
    chunker's loop when the fuel is spent. *)
Definition outcome (A : Type) : Type := option (result A).

(** *** /summarize *)

Record SummaryResponse : Type := {
  bullets : list str;
  summary : str
}.

Section Parsers.
Context {CT : CaseTables}.

(** Lines 155-164: one line of a generated text; the state is
    [(bullets, summary_paragraphs)]. *)
Definition summarize_line (st : list str * list str) (line : str)
  : result (list str * list str) :=
  let '(bullets, summary_paragraphs) := st in
  let line := strip line in
  if startswith line (lit "-") then
    let b := strip (lstrip_chars (lit "- ") line) in
    if negb (is_empty b) && negb (str_in b bullets)
    then Ok (bullets ++ [b], summary_paragraphs)
    else Ok st
  else if startswith (lower line) (lit "summary") then
    if contains (lit ":") line then
      frag <- item (split line (lit ":") (Some 1%nat)) 1 ;;
      Ok (bullets, summary_paragraphs ++ [strip frag])
    else Ok (bullets, summary_paragraphs ++ [strip line])
  else Ok st.

(** Line 154: [for line in out.splitlines()]. *)
Fixpoint summarize_lines (st : list str * list str) (lines : list str)
  : result (list str * list str) :=
  match lines with
  | [] => Ok st
  | line :: rest =>
      st' <- summarize_line st line ;;
      summarize_lines st' rest
  end.

(** Lines 151-166: [for c in chunks], with the [break] at five bullets. *)
Fixpoint summarize_chunks (generate : generator) (st : list str * list str)
  (chunks : list str) : result (list str * list str) :=
  match chunks with
  | [] => Ok st
  | c :: rest =>
      let prompt := SUMMARY_PROMPT c in
      out <- generate prompt 256 ;;
      st' <- summarize_lines st (splitlines out) ;;
      if (5 <=? length (fst st'))%nat then Ok st'
      else summarize_chunks generate st' rest
  end.

(** Lines 168-170. *)
Definition summarize_response (st : list str * list str) : SummaryResponse :=
  let '(bullets, summary_paragraphs) := st in
  {| bullets := firstn 5 bullets;
     summary :=
       match summary_paragraphs with
       | [] => []
       | _ => slice (join (lit " ") summary_paragraphs) 0 800
       end |}.

(** [summarize], lines 142-170. *)
Definition summarize (get_llama : result generator) (payload : Dict)
  : outcome SummaryResponse :=
  let full_text :=
    str_or (dict_get payload (lit "text") []) (dict_get payload (lit "url_text") []) in
  if is_empty full_text then
    Some (Raise (HTTPException 400 (lit "No text provided.")))
  else
    match get_llama with
    | Raise e => Some (Raise e)
    | Ok llama =>
        match Chunker.simple_chunk_text full_text 3200 with
        | None => None
        | Some chunks =>
            Some (st <- summarize_chunks llama ([], []) chunks ;;
                  Ok (summarize_response st))
        end
    end.

(** The bullet texts a line offers (lines 155-158, before the membership
    test). *)
Definition line_candidates (line : str) : list str :=
  let line := strip line in
  if startswith line (lit "-") then
    let b := strip (lstrip_chars (lit "- ") line) in
    if is_empty b then [] else [b]
  else [].

(** The bullet texts a generated text offers, in line order. *)
Definition bullet_candidates (out : str) : list str :=
  flat_map line_candidates (splitlines out).

(** "No duplicate bullet text, insertion order preserved": each new text is
    put at the end, a text already present is passed over. *)
Fixpoint add_new (acc bs : list str) : list str :=
  match bs with
  | [] => acc
  | b :: rest => add_new (if str_in b acc then acc else acc ++ [b]) rest
  end.

Definition first_occurrences (bs : list str) : list str := add_new [] bs.

(** The summary fragment a line offers (lines 160-164). *)
Definition line_fragments (line : str) : list str :=
  let line := strip line in
  if startswith line (lit "-") then []
  else if startswith (lower line) (lit "summary") then
    if contains (lit ":") line
    then [strip (nth 1 (split line (lit ":") (Some 1%nat)) [])]
    else [strip line]
  else [].

(** The summary fragments of a generated text, in line order. *)
Definition summary_fragments (out : str) : list str :=
  flat_map line_fragments (splitlines out).

(** The generated texts the loop of lines 151-166 reads: the generator's
    answers to the summary prompts of the chunks, in chunk order, up to and
    including the first one after which five bullets are there (the [break]
    of line 165), or all of them when that never happens. *)
Definition texts_read (llama : generator) (chunks outs : list str) : Prop :=
  Forall2 (fun c out => llama (SUMMARY_PROMPT c) 256 = Ok out)
    (firstn (length outs) chunks) outs /\
  (forall k, (k < length outs)%nat ->
     (length (first_occurrences (flat_map bullet_candidates (firstn k outs)))
      < 5)%nat) /\
  (length outs = length chunks \/
   (5 <= length (first_occurrences (flat_map bullet_candidates outs)))%nat).

(** *** /quiz *)

Record QuizQuestion : Type := {
  question : str;
  options : list str;
  answer : option str
}.

(** The JSON object returned: the key ["quiz"] is present or not. *)
Record QuizResponse : Type := {
  quiz : option (list QuizQuestion);
  quiz_raw : str
}.

Definition option_markers : list str :=
  [ lit "A)"; lit "B)"; lit "C)"; lit "D)";
    lit "A."; lit "B."; lit "C."; lit "D.";
    lit "A "; lit "B "; lit "C "; lit "D " ].

(** Line 188. *)
Definition starts_question (l : str) : bool :=
  startswith (lower l) (lit "question") || endswith l (lit "?").

(** Line 192. *)
Definition is_option (l : str) : bool :=
  startswith_any (upper l) option_markers.

(** Lines 188-203: one line; the state is [(questions, current_q)]. *)
Definition quiz_line (st : list QuizQuestion * option QuizQuestion) (l : str)
  : result (list QuizQuestion * option QuizQuestion) :=
  let '(questions, current_q) := st in
  if starts_question l then
    let questions :=
      match current_q with
      | Some q => questions ++ [q]
      | None => questions
      end in
    Ok (questions, Some {| question := l; options := []; answer := None |})
  else if is_option l then
    let q :=
      match current_q with
      | None => {| question := []; options := []; answer := None |}
      | Some q => q
      end in
    let q :=
      {| question := question q; options := options q ++ [l];
         answer := answer q |} in
    if contains (lit "(Answer:") l || contains (lit "Answer:") l then
      a <- last_item (split l (lit "Answer:") None) ;;
      Ok (questions,
          Some {| question := question q; options := options q;
                  answer := Some (strip_chars (lit " )") a) |})
    else Ok (questions, Some q)
  else if contains (lit "(Answer:") l then
    match current_q with
    | Some q =>
        a <- item (split l (lit "(Answer:") (Some 1%nat)) 1 ;;
        Ok (questions,
            Some {| question := question q; options := options q;
                    answer := Some (strip_chars (lit " )") a) |})
    | None => Ok st
    end
  else
    match current_q with
    | None =>
        Ok (questions,
            Some {| question := l; options := []; answer := None |})
    | Some _ => Ok st
    end.

(** Line 187: [for l in lines]. *)
Fixpoint quiz_lines (st : list QuizQuestion * option QuizQuestion)
  (lines : list str) : result (list QuizQuestion * option QuizQuestion) :=
  match lines with
  | [] => Ok st
  | l :: rest =>
      st' <- quiz_line st l ;;
      quiz_lines st' rest
  end.

(** Line 185: the trimmed, non-empty lines of the generated text. *)
Definition nonempty_lines (out : str) : list str :=
  map strip (filter (fun l => negb (is_empty (strip l))) (splitlines out)).

(** Lines 184-205: the question list parsed from a generated text. *)
Definition parse_quiz (out : str) : result (list QuizQuestion) :=
  st <- quiz_lines ([], None) (nonempty_lines out) ;;
  let '(questions, current_q) := st in
  Ok match current_q with
     | Some q => questions ++ [q]
     | None => questions
     end.

(** Lines 183-209: from the generated text to the response. *)
Definition quiz_response (out : str) : result QuizResponse :=
  questions <- parse_quiz out ;;
  match questions with
  | [] => Ok {| quiz := None; quiz_raw := out |}
  | _ => Ok {| quiz := Some questions; quiz_raw := out |}
  end.

(** The question list with the open question, if any, at its end: what
    line 204 makes of a state. *)
Definition pending (current_q : option QuizQuestion) : list QuizQuestion :=
  match current_q with
  | Some q => [q]
  | None => []
  end.

Definition all_questions (st : list QuizQuestion * option QuizQuestion)
  : list QuizQuestion :=
  fst st ++ pending (snd st).

(** The step of the loop with the indexing written with defaults; it is the
    value [quiz_line] returns ([quiz_line_step] below). *)
Definition quiz_step (st : list QuizQuestion * option QuizQuestion) (l : str)
  : list QuizQuestion * option QuizQuestion :=
  let '(questions, current_q) := st in
  if starts_question l then
    (match current_q with
     | Some q => questions ++ [q]
     | None => questions
     end,
     Some {| question := l; options := []; answer := None |})
  else if is_option l then
    let q :=
      match current_q with
      | None => {| question := []; options := []; answer := None |}
      | Some q => q
      end in
    (questions,
     Some {| question := question q; options := options q ++ [l];
             answer :=
               if contains (lit "(Answer:") l || contains (lit "Answer:") l
               then Some (strip_chars (lit " )")
                            (last (split l (lit "Answer:") None) []))
               else answer q |})
  else if contains (lit "(Answer:") l then
    match current_q with
    | Some q =>
        (questions,
         Some {| question := question q; options := options q;
                 answer :=
                   Some (strip_chars (lit " )")
                           (nth 1 (split l (lit "(Answer:") (Some 1%nat))
                              [])) |})
    | None => st
    end
  else
    match current_q with
    | None =>
        (questions, Some {| question := l; options := []; answer := None |})
    | Some _ => st
    end.

(** A line that only the third branch (line 198) takes. *)
Definition is_stray_answer (l : str) : bool :=
  negb (starts_question l) && negb (is_option l)
  && contains (lit "(Answer:") l.

(** The spec's "zero lines resembling questions": no line of the generated
    text matches the question pattern of line 188. *)
Definition no_question_lines (out : str) : Prop :=
  forall l, In l (nonempty_lines out) -> starts_question l = false.

(** [quiz], lines 173-209. *)
Definition quiz_endpoint (get_llama : result generator) (payload : Dict)
  : outcome QuizResponse :=
  let full_text := dict_get payload (lit "text") [] in
  if is_empty full_text then
    Some (Raise (HTTPException 400 (lit "No text provided.")))
  else
    match get_llama with
    | Raise e => Some (Raise e)
    | Ok llama =>
        match Chunker.simple_chunk_text full_text 3200 with
        | None => None
        | Some chunk =>
            let chunk_text :=
              match chunk with
              | c :: _ => c
              | [] => slice full_text 0 3200
              end in
            let prompt := QUIZ_PROMPT chunk_text in
            Some (out <- llama prompt 512 ;; quiz_response out)
        end
    end.

End Parsers.

End App.

(** ** Request bodies with values of any JSON type *)

Module Requests.
Import App.

(** A JSON value as [summarize] uses it: a string, or a value of another
    type ([int], [float], [bool], [list], [dict], [NoneType]), of which only
    the truth value and the name of the type matter; none of these types has
    a method [strip]. *)
Inductive json : Type :=
| JString (s : str)
| JOther (truth : bool) (type_name : str).

(** The body of a request: any JSON object. *)
Definition Body : Type := str -> option json.

(** [payload.get(key, "")] *)
Definition body_get (payload : Body) (key : str) : json :=
  match payload key with
  | Some v => v
  | None => JString []
  end.

(** [bool(v)] *)
Definition truthy (v : json) : bool :=
  match v with
  | JString s => negb (is_empty s)
  | JOther truth _ => truth
  end.

(** [a or b] *)
Definition json_or (a b : json) : json := if truthy a then a else b.

(** The body a [Dict] stands for: every value a string. *)
Definition of_dict (d : Dict) : Body :=
  fun key =>
    match d key with
    | Some s => Some (JString s)
    | None => None
    end.

(** The body [{"text": v}]. *)
Definition value_payload (v : json) : Body :=
  fun key => if str_eqb key (lit "text") then Some v else None.

(** What a handler called on such a body raises: an exception of [exn], or
    the [AttributeError] of [text.strip()] (line 68) on a value that is not
    a string. *)
Inductive raised : Type :=
| Exn (e : exn)
| AttributeError (msg : str).

Inductive reply (A : Type) : Type :=
| Returns (a : A)
| Raises (r : raised).
Arguments Returns {A} a.
Arguments Raises {A} r.

Definition reply_of {A : Type} (r : result A) : reply A :=
  match r with
  | Ok a => Returns a
  | Raise e => Raises (Exn e)
  end.

(** The message of the [AttributeError]. *)
Definition no_strip (type_name : str) : str :=
  lit "'" ++ type_name ++ lit "' object has no attribute 'strip'".

Section Handlers.
Context {CT : CaseTables}.

(** [summarize], lines 142-170, on any JSON body. *)
Definition summarize_json (get_llama : result generator) (payload : Body)
  : option (reply SummaryResponse) :=
  let full_text :=
    json_or (body_get payload (lit "text")) (body_get payload (lit "url_text")) in
  if negb (truthy full_text) then
    Some (Raises (Exn (HTTPException 400 (lit "No text provided."))))
  else
    match get_llama with
    | Raise e => Some (Raises (Exn e))
    | Ok llama =>
        match full_text with
        | JOther _ type_name =>
            Some (Raises (AttributeError (no_strip type_name)))
        | JString text =>
            match Chunker.simple_chunk_text text 3200 with
            | None => None
            | Some chunks =>
                Some (reply_of
                        (st <- summarize_chunks llama ([], []) chunks ;;
                         Ok (summarize_response st)))
            end
        end
    end.

End Handlers.

End Requests.
(** ** Text extraction (app/extractors.py) *)

Module Extractors.

(** [pathlib] on a POSIX system: the components of a path given as one
    string ([_PosixFlavour.splitroot] and [_Flavour.parse_parts]). *)
Definition sep : str := lit "/".

Definition splitroot_rel (part : str) : str :=
  if startswith part sep then lstrip_chars sep part else part.

Definition is_component (x : str) : bool :=
  negb (is_empty x) && negb (str_eqb x (lit ".")).

Definition components (path : str) : list str :=
  let rel := splitroot_rel path in
  if contains sep rel then filter is_component (split rel sep None)
  else if is_component rel then [rel] else [].

(** [Path(path).name] *)
Definition path_name (path : str) : str := last (components path) [].

(** [Path(path).suffix] *)
Definition path_suffix (path : str) : str :=
  let name := path_name path in
  let i := rfind name (lit ".") 0 (len name) in
  if (0 <? i) && (i <? len name - 1) then slice name i (len name) else [].

(** The libraries and the file system behind the three procedures:
    [pdfminer]'s [extract_text], the paragraph texts of
    [Document(path).paragraphs], and
    [open(path, "r", encoding="utf-8", errors="ignore").read()]. *)
Record Readers : Type := {
  extract_text_from_pdf : str -> result str;
  document_paragraphs : str -> result (list str);
  read_text : str -> result str
}.

Section Dispatch.
Context {CT : CaseTables}.
Variable readers : Readers.

(** Lines 9-12. *)
Definition extract_text_from_docx (path : str) : result str :=
  doc <- document_paragraphs readers path ;;
  let paragraphs :=
    filter (fun t => negb (is_empty t) && negb (is_empty (strip t))) doc in
  Ok (join [10%N] paragraphs).

(** Lines 14-19: the exception is raised again as it is. *)
Definition extract_text_from_pdf_or_fallback (path : str) : result str :=
  match extract_text_from_pdf readers path with
  | Ok text => Ok text
  | Raise e => Raise e
  end.

(** Lines 21-31. *)
Definition extract_text_from_uploaded_file (tmp_path filename : str)
  : result str :=
  let ext := lower (path_suffix filename) in
  if str_eqb ext (lit ".pdf") then extract_text_from_pdf_or_fallback tmp_path
  else if str_eqb ext (lit ".docx") then extract_text_from_docx tmp_path
  else if str_in ext [lit ".txt"] then read_text readers tmp_path
  else Raise (ValueError (lit "Unsupported file type. Use PDF, DOCX or TXT.")).

End Dispatch.

End Extractors.

(** ** Set-up of the wrapper and the remaining endpoints *)

Module Service.
Import Llama.

(** [str(e)] for the exceptions of the model; Starlette's rendering of an
    [HTTPException] is taken as given. *)
Definition exn_str (http_str : Z -> str -> str) (e : exn) : str :=
  match e with
  | HTTPException status_code detail => http_str status_code detail
  | RuntimeError msg => msg
  | FileNotFoundError msg => msg
  | ValueError msg => msg
  | IndexError => lit "list index out of range"
  end.

(** The file system as the set-up code asks it: [os.path.expanduser],
    [str(Path(p).resolve())], [Path.exists] and [os.path.isfile]. *)
Record FileSystem : Type := {
  expanduser : str -> str;
  resolve : str -> str;
  path_exists : str -> bool;
  isfile : str -> bool
}.

(** [LlamaWrapper.__init__], llama_wrapper.py lines 13-22. *)
Definition LlamaWrapper_init (fs : FileSystem) (model : str)
  (binary : option str) : result LlamaWrapper :=
  let model_path := resolve fs (expanduser fs model) in
  if negb (path_exists fs model_path) then
    Raise (FileNotFoundError (lit "Model file not found at " ++ model_path))
  else
    let default_bin :=
      expanduser fs (lit "~/EduNote/llama.cpp/build/bin/llama-cli") in
    let chosen :=
      match binary with
      | Some b => if is_empty b then default_bin else b
      | None => default_bin
      end in
    let binary_path := resolve fs (expanduser fs chosen) in
    if negb (path_exists fs binary_path) then
      Raise (FileNotFoundError
               (lit "llama-cli binary not found at " ++ binary_path))
    else Ok {| model_path := model_path; binary_path := binary_path |}.

(** The bound method [llama.generate(prompt, n_predict=n)]: the sampling
    parameters keep their defaults. *)
Definition bound_generate (run : subprocess_run) (self : LlamaWrapper)
  : App.generator :=
  fun prompt n_predict =>
    generate run self prompt n_predict default_temperature 40 default_top_p.

(** What main.py fixes when it is imported: whether the wrapper module
    could be imported, and the two expanded default paths. *)
Record Config : Type := {
  wrapper_imported : bool;
  DEFAULT_MODEL : str;
  DEFAULT_BIN : str
}.

Section Handlers.
Variable http_str : Z -> str -> str.
Variable cfg : Config.

(** [get_llama], main.py lines 50-64; the global [_llama] is passed in and
    out. *)
Definition get_llama (fs : FileSystem) (_llama : option LlamaWrapper)
  : result LlamaWrapper * option LlamaWrapper :=
  match _llama with
  | Some w => (Ok w, _llama)
  | None =>
      if negb (wrapper_imported cfg) then
        (Raise (HTTPException 500
                  (lit "Llama wrapper module not available.")), None)
      else if negb (isfile fs (DEFAULT_MODEL cfg)) then
        (Raise (HTTPException 500
                  (lit "Model file not found at " ++ DEFAULT_MODEL cfg)),
         None)
      else if negb (isfile fs (DEFAULT_BIN cfg)) then
        (Raise (HTTPException 500
                  (lit "llama-cli binary not found at " ++ DEFAULT_BIN cfg)),
         None)
      else
        match LlamaWrapper_init fs (DEFAULT_MODEL cfg)
                (Some (DEFAULT_BIN cfg)) with
        | Ok w => (Ok w, Some w)
        | Raise e =>
            (Raise (HTTPException 500
                      (lit "Failed to initialize LlamaWrapper: "
                       ++ exn_str http_str e)), None)
        end
  end.

(** [PromptRequest] *)
Record PromptRequest : Type := {
  prompt : str;
  max_tokens : Z
}.

Record GenerateResponse : Type := {
  response_prompt : str;
  response : str
}.

(** [generate_text], main.py lines 212-219. *)
Definition generate_text (get_llama : result App.generator)
  (request : PromptRequest) : result GenerateResponse :=
  llama <- get_llama ;;
  match llama (prompt request) (max_tokens request) with
  | Ok response =>
      Ok {| response_prompt := prompt request; response := response |}
  | Raise e => Raise (HTTPException 500 (exn_str http_str e))
  end.

(** The handlers take [get_llama()] as a generator or an exception: this is
    what a call of [get_llama] gives them, with the new value of
    [_llama]. *)
Definition llama_for_request (fs : FileSystem) (run : subprocess_run)
  (_llama : option LlamaWrapper)
  : result App.generator * option LlamaWrapper :=
  match get_llama fs _llama with
  | (Ok w, st) => (Ok (bound_generate run w), st)
  | (Raise e, st) => (Raise e, st)
  end.

Record UploadResponse : Type := {
  filename : str;
  (* "length" *)
  text_length : Z;
  text_preview : str;
  text : str
}.

(** [upload_file], main.py lines 120-139.  [extractor_imported] tells
    whether extractors.py could be imported; [store suffix] stands for the
    [with] block that writes the upload to a temporary file and gives its
    name, or raises.  The [finally] clause removes the file and changes
    nothing in the result. *)
Definition upload_file {CT : CaseTables} (extractor_imported : bool)
  (readers : Extractors.Readers) (store : str -> result str)
  (file_filename : str) : result UploadResponse :=
  if negb extractor_imported then
    Raise (HTTPException 500
             (lit "Text extractor not available (extractors.py import failed)."))
  else
    let suffix := lower (Extractors.path_suffix file_filename) in
    if negb (str_in suffix [lit ".pdf"; lit ".docx"; lit ".txt"]) then
      Raise (HTTPException 400
               (lit "Unsupported file type. Use PDF, DOCX, or TXT."))
    else
      match (tmp_path <- store suffix ;;
             Extractors.extract_text_from_uploaded_file readers tmp_path
               file_filename) with
      | Raise e =>
          Raise (HTTPException 500
                   (lit "Extraction error: " ++ exn_str http_str e))
      | Ok text =>
          Ok {| filename := file_filename; text_length := len text;
                text_preview := slice text 0 2000; text := text |}
      end.

End Handlers.

End Service.

(** ** Sample inputs *)

Module Samples.
Import Llama App.

(** A process that ends with status 1 and [boom] on its standard error. *)
Definition failing_run : subprocess_run :=
  fun _ => Ok {| returncode := 1; stdout := lit "partial"; stderr := lit "boom" |}.

Definition some_wrapper : LlamaWrapper :=
  {| model_path := lit "/models/m.gguf"; binary_path := lit "/bin/llama-cli" |}.

(** A generated text with seven distinct bullets and one repeated. *)
Definition eight_bullets : str :=
  lit "- a" ++ nl ++ lit "- b" ++ nl ++ lit "- a" ++ nl ++ lit "- c" ++ nl
  ++ lit "- d" ++ nl ++ lit "- e" ++ nl ++ lit "- f" ++ nl ++ lit "- g".

(** A file system on which every path is present and is its own expansion
    and resolution, and one on which nothing is present. *)
Definition fs_present : Service.FileSystem :=
  {| Service.expanduser := fun p => p; Service.resolve := fun p => p;
     Service.path_exists := fun _ => true; Service.isfile := fun _ => true |}.

Definition fs_absent : Service.FileSystem :=
  {| Service.expanduser := fun p => p; Service.resolve := fun p => p;
     Service.path_exists := fun _ => false; Service.isfile := fun _ => false |}.

Definition some_config : Service.Config :=
  {| Service.wrapper_imported := true;
     Service.DEFAULT_MODEL := lit "/home/u/EduNote/models/alpaca/m.gguf";
     Service.DEFAULT_BIN := lit "/home/u/EduNote/llama.cpp/llama-cli" |}.

(** A rendering of an [HTTPException] as [status: detail]. *)
Definition some_http_str (status_code : Z) (detail : str) : str :=
  str_of_Z status_code ++ lit ": " ++ detail.


(** A generator that fails. *)
Definition failing_generator : generator :=
  fun _ _ => Raise (RuntimeError (lit "llama-cli failed"))%string.

(** The body [{"text": 123}]. *)
Definition number_body : Requests.Body :=
  Requests.value_payload (Requests.JOther true (lit "int")).

(** A generated text with two bullets and two summary lines. *)
Definition bullets_and_summary : str :=
  lit "-  first " ++ nl ++ lit "SUMMARY: one: two. " ++ nl ++ lit "- second"
  ++ nl ++ lit "Summary three".

(** A process that succeeds with a two-line header, a blank line and two
    lines of text. *)
Definition header_run : subprocess_run :=
  fun _ => Ok {| returncode := 0;
                 stdout := lit "load model" ++ nl ++ lit "sampling" ++ nl
                           ++ nl ++ lit " Hello" ++ nl ++ lit "World " ++ nl;
                 stderr := [] |}.

(** Readers that find a PDF text, three paragraphs and a plain text. *)
Definition some_readers : Extractors.Readers :=
  {| Extractors.extract_text_from_pdf := fun _ => Ok (lit "pdf text");
     Extractors.document_paragraphs :=
       fun _ => Ok [lit "One"; lit "  "; lit "Two"];
     Extractors.read_text := fun _ => Ok (lit "plain text") |}.

End Samples.

(** * Properties *)

(** ** String primitives *)

Section StrFacts.

Lemma str_eqb_eq (a b : str) : str_eqb a b = true <-> a = b.
Proof.
  revert b; induction a as [|x a IH]; intros [|y b]; simpl;
    try (split; [discriminate | congruence]); try tauto.
  rewrite andb_true_iff, N.eqb_eq, IH. split.
  - intros [-> ->]; reflexivity.
  - intros E; injection E; auto.
Qed.

Lemma str_in_In (x : str) (xs : list str) : str_in x xs = true <-> In x xs.
Proof.
  unfold str_in. rewrite existsb_exists. split.
  - intros (y & Hy & E). apply str_eqb_eq in E. subst. exact Hy.
  - intros H. exists x. split; [exact H | apply str_eqb_eq; reflexivity].
Qed.

Lemma is_empty_nil (s : str) : is_empty s = true <-> s = [].
Proof. destruct s; simpl; split; congruence. Qed.

Lemma adjust_low_id (n i : Z) : 0 <= i -> adjust_low n i = i.
Proof.
  intros H. unfold adjust_low. destruct (Z.ltb_spec i 0); [lia | reflexivity].
Qed.

Lemma adjust_slice_id (n i : Z) : 0 <= i <= n -> adjust_slice n i = i.
Proof. intros H. unfold adjust_slice. rewrite adjust_low_id; lia. Qed.

Lemma firstn_plus (A : Type) (n m : nat) (l : list A) :
  firstn (n + m) l = firstn n l ++ firstn m (skipn n l).
Proof.
  revert l; induction n as [|n IH]; intros l; [reflexivity|].
  destruct l as [|x l]; simpl.
  - now rewrite firstn_nil.
  - now rewrite IH.
Qed.

Lemma slice_empty (s : str) (a : Z) : slice s a a = [].
Proof. unfold slice. now rewrite Z.sub_diag. Qed.

Lemma slice_full (s : str) : slice s 0 (len s) = s.
Proof.
  unfold slice, len. rewrite !adjust_slice_id by lia.
  rewrite Z.sub_0_r, Nat2Z.id. simpl. apply firstn_all.
Qed.

Lemma slice_app (s : str) (a b c : Z) :
  0 <= a -> a <= b -> b <= c -> c <= len s ->
  slice s a b ++ slice s b c = slice s a c.
Proof.
  intros Ha Hab Hbc Hc. unfold slice.
  rewrite !adjust_slice_id by lia.
  replace (Z.to_nat b) with (Z.to_nat (b - a) + Z.to_nat a)%nat by lia.
  rewrite <- skipn_skipn.
  replace (Z.to_nat (c - a)) with (Z.to_nat (b - a) + Z.to_nat (c - b))%nat
    by lia.
  now rewrite firstn_plus.
Qed.

Lemma rfind_from_range (s sub : str) (lo : Z) (n : nat) :
  rfind_from s sub lo n = -1 \/
  lo <= rfind_from s sub lo n < lo + Z.of_nat n.
Proof.
  induction n as [|n IH]; [left; reflexivity|].
  cbn [rfind_from].
  destruct (startswith _ sub); [right; lia|].
  destruct IH as [E | R]; [left; exact E | right; lia].
Qed.

Lemma rfind_range (s sub : str) (start end_ : Z) :
  0 <= start -> 0 <= end_ <= len s -> 0 < len sub ->
  rfind s sub start end_ = -1 \/ start <= rfind s sub start end_ < end_.
Proof.
  intros Hs He Hsub. unfold rfind.
  rewrite adjust_slice_id, adjust_low_id by lia.
  destruct (Z.ltb_spec (end_ - start) (len sub)); [left; reflexivity|].
  destruct (rfind_from_range s sub start
              (Z.to_nat (end_ - start - len sub + 1))) as [E | R];
    [left; exact E | right; lia].
Qed.

(** A character that does not occur is not found. *)
Lemma rfind_absent (s : str) (c : N) (start end_ : Z) :
  ~ In c s -> rfind s [c] start end_ = -1.
Proof.
  intros Hc. unfold rfind.
  destruct (_ <? _); [reflexivity|].
  generalize (Z.to_nat
                (adjust_slice (len s) end_ - adjust_low (len s) start
                 - len [c] + 1)).
  intros n. induction n as [|n IH]; [reflexivity|]. cbn [rfind_from].
  destruct (skipn _ s) as [|x r] eqn:E; cbn [startswith]; [exact IH|].
  destruct (N.eqb_spec c x) as [<- | _]; [|exact IH].
  exfalso. apply Hc.
  rewrite <- (firstn_skipn
                (Z.to_nat (adjust_low (len s) start + Z.of_nat n)) s), E.
  apply in_or_app. right. left. reflexivity.
Qed.

Lemma startswith_nil (s : str) : startswith s [] = true.
Proof. destruct s; reflexivity. Qed.

Lemma startswith_app (s p : str) :
  startswith s p = true <-> s = p ++ skipn (length p) s.
Proof.
  revert s; induction p as [|a p IH]; intros s; simpl.
  - destruct s; split; reflexivity.
  - destruct s as [|b s]; simpl; [split; discriminate|].
    rewrite andb_true_iff, N.eqb_eq, IH. split.
    + intros [-> E]. now rewrite <- E.
    + intros E. injection E as E1 E2. split; [symmetry; exact E1 | exact E2].
Qed.

Lemma startswith_prefix (p r : str) : startswith (p ++ r) p = true.
Proof.
  induction p as [|a p IH]; simpl; [apply startswith_nil|].
  now rewrite N.eqb_refl, IH.
Qed.

Lemma contains_here (sub s : str) :
  startswith s sub = true -> contains sub s = true.
Proof. intros H. destruct s; cbn [contains]; rewrite H; reflexivity. Qed.

Lemma contains_app (sub pre post : str) :
  contains sub (pre ++ sub ++ post) = true.
Proof.
  induction pre as [|c pre IH]; simpl.
  - apply contains_here, startswith_prefix.
  - rewrite IH. apply orb_true_r.
Qed.

Lemma contains_suffix (sub pre : str) : contains sub (pre ++ sub) = true.
Proof.
  rewrite <- (app_nil_r sub) at 2. apply contains_app.
Qed.

(** [split] never returns an empty list. *)
Lemma split_from_cons (sep : str) (s : str) :
  forall (k : option nat) (skip : nat) (cur : str),
    exists x xs, split_from sep k skip cur s = x :: xs.
Proof.
  induction s as [|c r IH]; intros k skip cur; cbn [split_from]; [eauto|].
  destruct skip; [|apply IH].
  destruct (may_split k && startswith (c :: r) sep); [eauto | apply IH].
Qed.

(** With no split left, the remainder is kept whole. *)
Lemma split_from_exhausted (sep : str) (s : str) :
  forall (skip : nat) (cur : str),
    split_from sep (Some O) skip cur s = [cur ++ skipn skip s].
Proof.
  induction s as [|c r IH]; intros skip cur; cbn [split_from].
  - now rewrite skipn_nil, app_nil_r.
  - destruct skip; cbn [may_split andb]; rewrite IH; [|reflexivity].
    now rewrite <- app_assoc.
Qed.

(** [s.split(sep, 1)] when [sep in s]: the text before the first match and
    the text after it. *)
Lemma split_once (sep : str) (s : str) :
  sep <> [] -> contains sep s = true ->
  forall cur : str,
    exists pre post,
      split_from sep (Some 1%nat) O cur s = [cur ++ pre; post] /\
      s = pre ++ sep ++ post.
Proof.
  intros Hsep. induction s as [|c r IH]; intros Hc cur.
  - simpl in Hc. destruct sep; [congruence | discriminate].
  - cbn [split_from]. cbn [may_split andb].
    destruct (startswith (c :: r) sep) eqn:Hs.
    + exists [], (skipn (length sep) (c :: r)).
      cbn [one_less pred]. rewrite split_from_exhausted, app_nil_r.
      apply startswith_app in Hs. split; [|exact Hs].
      destruct sep as [|a sep']; [congruence|]. reflexivity.
    + cbn [contains] in Hc. rewrite Hs in Hc. simpl in Hc.
      destruct (IH Hc (cur ++ [c])) as (pre & post & E & Er).
      exists (c :: pre), post. rewrite E, <- app_assoc. simpl.
      now rewrite Er.
Qed.

End StrFacts.

(** ** Chunker *)

Section ChunkerFacts.
Import Chunker.

Variable text : str.
Variable max_chars : Z.

(** One iteration, for a positive window: the split index lies strictly after
    the cursor and inside the text. *)
Lemma split_point_advances (start : Z) :
  0 < max_chars -> 0 <= start < len text ->
  start < split_point text max_chars start <= len text.
Proof.
  intros Hm Hs. unfold split_point.
  set (end_ := Z.min (start + max_chars) (len text)).
  assert (He : start < end_ <= len text) by (unfold end_; lia).
  destruct (rfind_range text newline start end_) as [E1 | R1];
    try lia; [reflexivity | rewrite E1 | ];
    destruct (rfind_range text period start end_) as [E2 | R2];
    try lia; try reflexivity.
  - rewrite E2. destruct (Z.leb_spec (-1) start); [|lia]. simpl.
    destruct (Z.leb_spec (-1) start); lia.
  - destruct (Z.leb_spec (-1) start); [|lia].
    destruct (Z.leb_spec (rfind text period start end_) start); lia.
  - destruct (Z.leb_spec (rfind text newline start end_) start).
    + rewrite E2. destruct (Z.leb_spec (-1) start); lia.
    + destruct (Z.leb_spec (rfind text newline start end_) start); lia.
  - destruct (Z.leb_spec (rfind text newline start end_) start).
    + destruct (Z.leb_spec (rfind text period start end_) start); lia.
    + destruct (Z.leb_spec (rfind text newline start end_) start); lia.
Qed.

(** When neither search gives an index after the cursor, the split index is
    the end of the window. *)
Lemma split_point_fallback (start : Z) :
  rfind text newline start (Z.min (start + max_chars) (len text)) <= start ->
  rfind text period start (Z.min (start + max_chars) (len text)) <= start ->
  split_point text max_chars start = Z.min (start + max_chars) (len text).
Proof.
  intros H1 H2. unfold split_point.
  destruct (Z.leb_spec
              (rfind text newline start (Z.min (start + max_chars) (len text)))
              start); [|lia].
  destruct (Z.leb_spec
              (rfind text period start (Z.min (start + max_chars) (len text)))
              start); [reflexivity | lia].
Qed.

(** On a text without line break and without full stop every cut is a hard
    cut at the window end. *)
Lemma split_point_without_separators (start : Z) :
  ~ In 10%N text -> ~ In 46%N text -> 0 <= start ->
  split_point text max_chars start = Z.min (start + max_chars) (len text).
Proof.
  intros Hn Hp Hs. apply split_point_fallback.
  - unfold newline. rewrite rfind_absent by exact Hn. lia.
  - change period with [46%N]. rewrite rfind_absent by exact Hp. lia.
Qed.

Lemma chain_le (lo hi : Z) (bs : list (Z * Z)) : chain lo bs hi -> lo <= hi.
Proof. induction 1; lia. Qed.

Lemma chain_increasing (lo hi : Z) (bs : list (Z * Z)) :
  chain lo bs hi -> Forall (fun b => lo <= fst b < snd b /\ snd b <= hi) bs.
Proof.
  induction 1 as [|lo mid hi bs Hlt Hc IH]; constructor.
  - simpl. apply chain_le in Hc. lia.
  - eapply Forall_impl; [|exact IH]. simpl. intros b ?. lia.
Qed.

(** With [len text - start] units of fuel the loop runs to its end, and the
    cursor intervals form a chain up to the end of the text. *)
Lemma chunk_bounds_total :
  0 < max_chars ->
  forall (fuel : nat) (start : Z),
    0 <= start <= len text -> len text - start <= Z.of_nat fuel ->
    exists bs, chunk_bounds fuel text max_chars start = Some bs /\
               chain start bs (len text).
Proof.
  intros Hm. induction fuel as [|fuel IH]; intros start Hs Hf.
  - assert (start = len text) by lia. subst start.
    exists []. simpl. rewrite Z.ltb_irrefl. split; [reflexivity | constructor].
  - cbn [chunk_bounds]. destruct (Z.ltb_spec start (len text)) as [Hlt | Hge].
    + pose proof (split_point_advances start Hm (conj (proj1 Hs) Hlt)) as Hsp.
      destruct (IH (split_point text max_chars start)) as (bs & E & C);
        [lia | lia |].
      exists ((start, split_point text max_chars start) :: bs).
      rewrite E. split; [reflexivity | constructor; [lia | exact C]].
    + assert (start = len text) by lia. subst start.
      exists []. split; [reflexivity | constructor].
Qed.

(** The chunks are the trimmed slices of the cursor intervals. *)
Lemma chunk_loop_bounds (fuel : nat) :
  forall (start : Z) (chunks : list str),
    chunk_loop fuel text max_chars start chunks =
    option_map (fun bs => chunks ++ map (chunk_of text) bs)
      (chunk_bounds fuel text max_chars start).
Proof.
  induction fuel as [|fuel IH]; intros start chunks.
  - simpl. destruct (start <? len text); simpl; [reflexivity|].
    now rewrite app_nil_r.
  - cbn [chunk_loop chunk_bounds].
    destruct (start <? len text); simpl; [|now rewrite app_nil_r].
    rewrite IH.
    destruct (chunk_bounds fuel text max_chars
                (split_point text max_chars start)); simpl; [|reflexivity].
    unfold chunk_of at 2. simpl. now rewrite <- app_assoc.
Qed.

(** More fuel does not change a finished run. *)
Lemma chunk_bounds_more_fuel (fuel : nat) :
  forall (start : Z) (bs : list (Z * Z)) (extra : nat),
    chunk_bounds fuel text max_chars start = Some bs ->
    chunk_bounds (fuel + extra) text max_chars start = Some bs.
Proof.
  induction fuel as [|fuel IH]; intros start bs extra.
  - simpl. destruct extra; simpl; destruct (start <? len text);
      congruence.
  - cbn [chunk_bounds Nat.add]. destruct (start <? len text); [|auto].
    destruct (chunk_bounds fuel text max_chars
                (split_point text max_chars start)) as [bs'|] eqn:E;
      simpl; [|discriminate].
    intros H. now rewrite (IH _ _ extra E).
Qed.

(** With a window of zero characters the split index is the cursor. *)
Lemma split_point_zero_window (start : Z) :
  0 <= start <= len text -> split_point text 0 start = start.
Proof.
  intros Hs. unfold split_point.
  replace (Z.min (start + 0) (len text)) with start by lia.
  assert (R : forall sub, len sub = 1 -> rfind text sub start start = -1).
  { intros sub Hsub. unfold rfind.
    rewrite adjust_slice_id, adjust_low_id by lia.
    rewrite Z.sub_diag, Hsub. reflexivity. }
  rewrite !R by reflexivity.
  destruct (Z.leb_spec (-1) start); [|lia].
  destruct (Z.leb_spec (-1) start); [reflexivity | lia].
Qed.

Lemma chunk_loop_zero_window (fuel : nat) :
  forall (start : Z) (chunks : list str),
    0 <= start < len text -> chunk_loop fuel text 0 start chunks = None.
Proof.
  induction fuel as [|fuel IH]; intros start chunks Hs; cbn [chunk_loop];
    destruct (Z.ltb_spec start (len text)); try lia; [reflexivity|].
  rewrite split_point_zero_window by lia. now apply IH.
Qed.

(** The slices of a chain, put end to end, are the slice of the whole. *)
Lemma chain_concat (lo hi : Z) (bs : list (Z * Z)) :
  chain lo bs hi -> 0 <= lo -> hi <= len text ->
  concat (map (slice_of text) bs) = slice text lo hi.
Proof.
  induction 1 as [lo | lo mid hi bs Hlt Hc IH]; intros Hlo Hhi; simpl.
  - now rewrite slice_empty.
  - rewrite IH by lia. unfold slice_of. simpl.
    apply chain_le in Hc. apply slice_app; lia.
Qed.

End ChunkerFacts.

Import Chunker.

(** The whole function: enough fuel finishes the run. *)
Lemma simple_chunk_run (text : str) (max_chars : Z) :
  0 < max_chars ->
  forall fuel : nat,
    (length (strip text) <= fuel)%nat ->
    exists bs,
      simple_chunk_bounds_fuel fuel text max_chars = Some bs /\
      simple_chunk_text_fuel fuel text max_chars
        = Some (map (chunk_of (strip text)) bs) /\
      chain 0 bs (len (strip text)).
Proof.
  intros Hm fuel Hf.
  unfold Chunker.simple_chunk_text_fuel, simple_chunk_bounds_fuel.
  destruct (strip text) as [|c t'] eqn:Et.
  - exists []. repeat split. constructor.
  - rewrite <- Et in *.
    destruct (chunk_bounds_total (strip text) max_chars Hm fuel 0) as (bs & E & C).
    + unfold len; lia.
    + unfold len; lia.
    + exists bs. rewrite chunk_loop_bounds, E. repeat split. exact C.
Qed.


(** ** Claims about the chunker *)

Section ChunkerClaims.

(** C1: for every text and every positive [max_chars] the chunker terminates
    and moves forward at each step.  Every iteration started at a cursor
    inside the trimmed text picks a split index strictly after the cursor
    (and, when neither [rfind] gives an index after the cursor, exactly the
    window end); the loop is over after at most as many iterations as the
    trimmed text has characters, and every cursor interval it visited is
    non-empty. *)
Theorem chunk_terminates_with_progress (text : str) (max_chars : Z) :
  0 < max_chars ->
  let t := strip text in
  (forall start, 0 <= start < len t ->
     start < split_point t max_chars start <= len t /\
     (rfind t newline start (Z.min (start + max_chars) (len t)) <= start ->
      rfind t period start (Z.min (start + max_chars) (len t)) <= start ->
      split_point t max_chars start = Z.min (start + max_chars) (len t))) /\
  (forall fuel, (length t <= fuel)%nat ->
     exists chunks bs,
       simple_chunk_text_fuel fuel text max_chars = Some chunks /\
       simple_chunk_bounds_fuel fuel text max_chars = Some bs /\
       chunks = map (chunk_of t) bs /\
       chain 0 bs (len t) /\
       Forall (fun b => fst b < snd b) bs).
Proof.
  intros Hm t. split.
  - intros start Hs. split.
    + now apply split_point_advances.
    + apply split_point_fallback.
  - intros fuel Hf.
    destruct (simple_chunk_run text max_chars Hm fuel Hf) as (bs & E1 & E2 & C).
    exists (map (chunk_of t) bs), bs. repeat split; try assumption.
    eapply Forall_impl; [|exact (chain_increasing _ _ _ C)].
    simpl. intros b ?. lia.
Qed.

Lemma chunk_terminates_with_progress_witness :
  0 < 3 /\
  let text := lit "aaaaaaaaaa" in
  let t := strip text in
  (forall start, 0 <= start < len t ->
     start < split_point t 3 start <= len t /\
     (rfind t newline start (Z.min (start + 3) (len t)) <= start ->
      rfind t period start (Z.min (start + 3) (len t)) <= start ->
      split_point t 3 start = Z.min (start + 3) (len t))) /\
  (forall fuel, (length t <= fuel)%nat ->
     exists chunks bs,
       simple_chunk_text_fuel fuel text 3 = Some chunks /\
       simple_chunk_bounds_fuel fuel text 3 = Some bs /\
       chunks = map (chunk_of t) bs /\
       chain 0 bs (len t) /\
       Forall (fun b => fst b < snd b) bs).
Proof.
  split; [lia | apply (chunk_terminates_with_progress (lit "aaaaaaaaaa") 3); lia].
Defined.

(** The run of 10,000 non-whitespace characters, with the default window of
    3500: the call returns. *)
Example chunk_long_run :
  exists chunks,
    simple_chunk_text (repeat 97%N (N.to_nat 10000)) 3500 = Some chunks.
Proof.
  destruct (simple_chunk_run (repeat 97%N (N.to_nat 10000)) 3500 eq_refl
              _ (le_n _)) as (bs & _ & E & _).
  eexists. exact E.
Qed.

(** The same shape in small: ten characters, a window of three, hard cuts
    only. *)
Example chunk_short_run :
  simple_chunk_text (lit "aaaaaaaaaa") 3 =
  Some [lit "aaa"; lit "aaa"; lit "aaa"; lit "a"].
Proof. reflexivity. Qed.

(** A window of zero characters never moves the cursor: no amount of fuel
    finishes the loop on a text that is not blank. *)
Lemma chunk_zero_window_never_ends (text : str) (fuel : nat) :
  strip text <> [] -> simple_chunk_text_fuel fuel text 0 = None.
Proof.
  intros Hne. unfold simple_chunk_text_fuel.
  destruct (strip text) as [|c t'] eqn:Et; [congruence|].
  rewrite <- Et. apply chunk_loop_zero_window.
  rewrite Et. unfold len. simpl length. lia.
Qed.

(** C2: the chunker's output covers the trimmed input exactly.  The cursor
    intervals follow one another from 0 to the length of the trimmed text,
    each one non-empty; the emitted chunks are the trimmed slices of these
    intervals, in order; and the untrimmed slices, concatenated in order,
    are the trimmed input. *)
Theorem chunks_cover_trimmed_input (text : str) (max_chars : Z) :
  0 < max_chars ->
  let t := strip text in
  exists bs,
    simple_chunk_bounds text max_chars = Some bs /\
    simple_chunk_text text max_chars = Some (map (chunk_of t) bs) /\
    chain 0 bs (len t) /\
    concat (map (slice_of t) bs) = t.
Proof.
  intros Hm t.
  destruct (simple_chunk_run text max_chars Hm (length t) (le_n _))
    as (bs & E1 & E2 & C).
  exists bs. repeat split; try assumption.
  rewrite (chain_concat t 0 (len t) bs C); [|lia|lia].
  apply slice_full.
Qed.

Lemma chunks_cover_trimmed_input_witness :
  0 < 10 /\
  let text := lit "  Hello world. This is a test.  " in
  let t := strip text in
  exists bs,
    simple_chunk_bounds text 10 = Some bs /\
    simple_chunk_text text 10 = Some (map (chunk_of t) bs) /\
    chain 0 bs (len t) /\
    concat (map (slice_of t) bs) = t.
Proof.
  split; [lia|].
  apply (chunks_cover_trimmed_input (lit "  Hello world. This is a test.  ")
           10).
  lia.
Defined.

(** The intervals and chunks of that run: a hard cut, two cuts at a full
    stop, and the cuts forced when the full stop sits on the cursor. *)
Example chunk_sentences :
  simple_chunk_bounds (lit "  Hello world. This is a test.  ") 10
  = Some [(0, 10); (10, 11); (11, 21); (21, 27); (27, 28)] /\
  simple_chunk_text (lit "  Hello world. This is a test.  ") 10
  = Some [ lit "Hello worl"; lit "d"; lit ". This is"; lit "a test";
           lit "." ].
Proof. split; reflexivity. Qed.

End ChunkerClaims.

(** C8: emitted chunks are not guaranteed to be non-empty.  On the text
    [a b] with a window of one character the second window holds only the
    blank, and its chunk is the empty string. *)
Theorem chunk_may_be_empty :
  exists (text : str) (max_chars : Z) (chunks : list str),
    text <> [] /\ 0 < max_chars /\
    Chunker.simple_chunk_text text max_chars = Some chunks /\
    In [] chunks.
Proof.
  exists (lit "a b"), 1, [lit "a"; []; lit "b"].
  repeat split; [discriminate | simpl; auto].
Qed.

(** ** Quiz parser *)

Section QuizFacts.
Import App.
Context {CT : CaseTables}.

Lemma last_item_split (l sep : str) (k : option nat) :
  exists a, last_item (split l sep k) = Ok a.
Proof.
  unfold split. destruct (split_from_cons sep l k O []) as (x & xs & E).
  rewrite E. simpl. eauto.
Qed.

Lemma item_split_once (l sep : str) :
  sep <> [] -> contains sep l = true ->
  exists pre post,
    item (split l sep (Some 1%nat)) 1 = Ok post /\ l = pre ++ sep ++ post.
Proof.
  intros Hsep Hc. unfold split.
  destruct (split_once sep l Hsep Hc []) as (pre & post & E & El).
  rewrite E. exists pre, post. split; [reflexivity | exact El].
Qed.

(** Once a question is open, one stays open. *)
Lemma quiz_line_open (qs : list QuizQuestion) (q : QuizQuestion) (l : str) :
  exists qs' q', quiz_line (qs, Some q) l = Ok (qs', Some q').
Proof.
  unfold quiz_line.
  destruct (starts_question l); [eauto|].
  destruct (is_option l).
  - destruct (contains (lit "(Answer:") l || contains (lit "Answer:") l);
      [|eauto].
    destruct (last_item_split l (lit "Answer:") None) as (a & ->).
    simpl. eauto.
  - destruct (contains (lit "(Answer:") l) eqn:Hc; [|eauto].
    destruct (item_split_once l (lit "(Answer:")) as (pre & post & -> & _);
      [discriminate | exact Hc | simpl; eauto].
Qed.

(** With no question open, a stray answer line changes nothing and every
    other line opens a question. *)
Lemma quiz_line_closed (qs : list QuizQuestion) (l : str) :
  (is_stray_answer l = true /\ quiz_line (qs, None) l = Ok (qs, None)) \/
  (is_stray_answer l = false /\
   exists q', quiz_line (qs, None) l = Ok (qs, Some q')).
Proof.
  unfold quiz_line, is_stray_answer.
  destruct (starts_question l); [right; simpl; eauto|].
  destruct (is_option l).
  - right. split; [reflexivity|].
    destruct (contains (lit "(Answer:") l || contains (lit "Answer:") l);
      [|eauto].
    destruct (last_item_split l (lit "Answer:") None) as (a & ->).
    simpl. eauto.
  - destruct (contains (lit "(Answer:") l); [left | right]; simpl; eauto.
Qed.

Lemma quiz_lines_open (lines : list str) :
  forall (qs : list QuizQuestion) (q : QuizQuestion),
    exists qs' q', quiz_lines (qs, Some q) lines = Ok (qs', Some q').
Proof.
  induction lines as [|l rest IH]; intros qs q; cbn [quiz_lines]; [eauto|].
  destruct (quiz_line_open qs q l) as (qs1 & q1 & ->). cbn [bind]. apply IH.
Qed.

Lemma quiz_lines_closed (lines : list str) (qs : list QuizQuestion) :
  (forallb is_stray_answer lines = true /\
   quiz_lines (qs, None) lines = Ok (qs, None)) \/
  (forallb is_stray_answer lines = false /\
   exists qs' q', quiz_lines (qs, None) lines = Ok (qs', Some q')).
Proof.
  induction lines as [|l rest IH]; cbn [quiz_lines forallb]; [left; auto|].
  destruct (quiz_line_closed qs l) as [(Hs & ->) | (Hs & q' & ->)];
    rewrite Hs; cbn [bind andb].
  - exact IH.
  - right. split; [reflexivity | apply quiz_lines_open].
Qed.

(** The answer branch of line 198, with a question open: the answer becomes
    the text after the first [(Answer:], with blanks and closing brackets
    removed at both ends; the options are left alone. *)
Lemma answer_line_sets_answer (qs : list QuizQuestion) (q : QuizQuestion)
  (l : str) :
  starts_question l = false -> is_option l = false ->
  contains (lit "(Answer:") l = true ->
  exists pre post,
    l = pre ++ lit "(Answer:" ++ post /\
    quiz_line (qs, Some q) l =
    Ok (qs, Some {| question := question q; options := options q;
                    answer := Some (strip_chars (lit " )") post) |}).
Proof.
  intros Hq Ho Hc. unfold quiz_line. rewrite Hq, Ho, Hc.
  destruct (item_split_once l (lit "(Answer:")) as (pre & post & -> & El);
    [discriminate | exact Hc |].
  exists pre, post. split; [exact El | reflexivity].
Qed.

(** A line with the bracketed marker has the bare marker too. *)
Lemma paren_marker_is_marker (l : str) :
  contains (lit "(Answer:") l = true -> contains (lit "Answer:") l = true.
Proof.
  induction l as [|x r IH]; [discriminate|].
  cbn [contains]. intros H. apply orb_true_iff in H.
  apply orb_true_iff. right. destruct H as [H | H]; [|exact (IH H)].
  cbn [startswith lit map list_ascii_of_string] in H.
  apply andb_true_iff in H. destruct H as [_ H].
  now apply contains_here.
Qed.

End QuizFacts.

Section QuizClaims.
Import App.

(** C3, as the spec words it, fails: the text [hello] has no line matching
    the question pattern (nor the option pattern, nor an answer marker), yet
    the parser returns one question, because line 203 opens a question for
    any other line when none is open; the response then carries a
    structured result, not the raw text alone. *)
Lemma plain_line_opens_question :
  @no_question_lines ascii_case (lit "hello") /\
  @is_option ascii_case (lit "hello") = false /\
  contains (lit "Answer:") (lit "hello") = false /\
  @parse_quiz ascii_case (lit "hello")
  = Ok [ {| question := lit "hello"; options := []; answer := None |} ] /\
  @parse_quiz ascii_case (lit "hello") <> Ok [] /\
  @quiz_response ascii_case (lit "hello")
  <> Ok {| quiz := None; quiz_raw := lit "hello" |}.
Proof.
  split; [intros l [<- | []]; reflexivity|].
  repeat (split; [reflexivity|]).
  split; discriminate.
Qed.

(** C3, amended: the quiz parser never raises.  It returns the empty
    sequence when every trimmed non-empty line of the generated text is a
    stray answer line (it contains [(Answer:] and matches neither the
    question pattern nor the option pattern), which includes the text
    without any non-blank line.  It returns a non-empty sequence when some
    line matches the question pattern or the option pattern, or carries no
    answer marker [Answer:] at all: such a line opens a question when none
    is open.  When the sequence is empty the response carries only the raw
    generated text, verbatim, while a non-empty sequence is returned
    together with it.  (A line with the marker [Answer:] without its opening
    bracket, matching neither pattern, is left out of this statement.) *)
Theorem parse_quiz_empty_cases {CT : CaseTables} (out : str) :
  (exists qs, parse_quiz out = Ok qs) /\
  (forallb is_stray_answer (nonempty_lines out) = true ->
   parse_quiz out = Ok []) /\
  (forall l, In l (nonempty_lines out) ->
     starts_question l = true \/ is_option l = true \/
     contains (lit "Answer:") l = false ->
     exists q qs, parse_quiz out = Ok (q :: qs)) /\
  (parse_quiz out = Ok [] ->
   quiz_response out = Ok {| quiz := None; quiz_raw := out |}) /\
  (forall qs, parse_quiz out = Ok qs -> qs <> [] ->
   quiz_response out = Ok {| quiz := Some qs; quiz_raw := out |}).
Proof.
  assert (Hcase :
    (forallb is_stray_answer (nonempty_lines out) = true /\
     parse_quiz out = Ok []) \/
    (forallb is_stray_answer (nonempty_lines out) = false /\
     exists qs q, parse_quiz out = Ok (qs ++ [q]))).
  { unfold parse_quiz.
    destruct (quiz_lines_closed (nonempty_lines out) [])
      as [(Hs & ->) | (Hs & qs & q & ->)]; simpl; eauto. }
  split; [|split; [|split; [|split]]].
  - destruct Hcase as [(_ & ->) | (_ & qs & q & ->)]; eauto.
  - intros Hs. destruct Hcase as [(_ & E) | (Hs' & _)];
      [exact E | congruence].
  - intros l Hin Hl.
    assert (Hns : is_stray_answer l = false).
    { unfold is_stray_answer. destruct Hl as [-> | [-> | Hm]];
        [reflexivity | apply andb_false_iff; left; apply andb_false_r |].
      destruct (contains (lit "(Answer:") l) eqn:Hp;
        [|apply andb_false_r].
      apply paren_marker_is_marker in Hp. congruence. }
    destruct Hcase as [(Hs & _) | (_ & qs & q & ->)].
    + rewrite forallb_forall in Hs. rewrite (Hs l Hin) in Hns. discriminate.
    + destruct qs as [|q0 qs]; cbn [app]; eauto.
  - intros E. unfold quiz_response. now rewrite E.
  - intros qs E Hne. unfold quiz_response. rewrite E. simpl.
    destruct qs; [congruence | reflexivity].
Qed.

Lemma parse_quiz_empty_cases_witness :
  let out := lit "(Answer: B)" in
  forallb (@is_stray_answer ascii_case) (nonempty_lines out) = true /\
  @parse_quiz ascii_case out = Ok [] /\
  @quiz_response ascii_case out = Ok {| quiz := None; quiz_raw := out |}.
Proof.
  destruct (@parse_quiz_empty_cases ascii_case (lit "(Answer: B)"))
    as (_ & Hempty & _ & Hraw & _).
  split; [reflexivity|].
  split; [apply Hempty; reflexivity | apply Hraw, Hempty; reflexivity].
Defined.

(** A preamble line without any marker, then a stray answer line: one
    question, returned with the raw text. *)
Example preamble_opens_question :
  let out := lit "Here is your quiz" ++ nl ++ lit "(Answer: B)" in
  In (lit "Here is your quiz") (nonempty_lines out) /\
  contains (lit "Answer:") (lit "Here is your quiz") = false /\
  @quiz_response ascii_case out
  = Ok {| quiz := Some [ {| question := lit "Here is your quiz";
                            options := [];
                            answer := Some (lit "B") |} ];
          quiz_raw := out |}.
Proof. split; [left; reflexivity|]. split; reflexivity. Qed.

(** A text made of a stray answer line, and a blank text: no question, and
    the response carries the raw text only. *)
Example stray_only_text :
  @parse_quiz ascii_case (lit "(Answer: B)") = Ok [] /\
  @quiz_response ascii_case (lit "(Answer: B)")
  = Ok {| quiz := None; quiz_raw := lit "(Answer: B)" |} /\
  @quiz_response ascii_case (lit "  " ++ nl ++ lit " ")
  = Ok {| quiz := None; quiz_raw := lit "  " ++ nl ++ lit " " |}.
Proof. repeat split. Qed.

(** C9: a line containing [(Answer:] that matches neither the question
    pattern nor the option pattern, met while no question is open, is
    dropped: the question list and the empty current-question slot are
    exactly as before. *)
Theorem stray_answer_line_discarded {CT : CaseTables}
  (questions : list QuizQuestion) (l : str) :
  l <> [] ->
  contains (lit "(Answer:") l = true ->
  starts_question l = false ->
  is_option l = false ->
  quiz_line (questions, None) l = Ok (questions, None).
Proof.
  intros _ Hc Hq Ho. unfold quiz_line. now rewrite Hq, Ho, Hc.
Qed.

Lemma stray_answer_line_discarded_witness :
  lit "(Answer: B)" <> [] /\
  contains (lit "(Answer:") (lit "(Answer: B)") = true /\
  @starts_question ascii_case (lit "(Answer: B)") = false /\
  @is_option ascii_case (lit "(Answer: B)") = false /\
  @quiz_line ascii_case ([], None) (lit "(Answer: B)") = Ok ([], None).
Proof.
  split; [discriminate|].
  split; [reflexivity|]. split; [reflexivity|]. split; [reflexivity|].
  apply (@stray_answer_line_discarded ascii_case [] (lit "(Answer: B)"));
    [discriminate | reflexivity | reflexivity | reflexivity].
Defined.

(** C7, at the input where the code departs from it: with the question
    [What is 2+2?] open, the line [Answer: B] (marker without the opening
    bracket) matches neither the question nor the option pattern, and the
    question keeps no answer.  The same line written [(Answer: B)] sets the
    answer to [B]. *)
Theorem bare_answer_line_ignored :
  @starts_question ascii_case (lit "Answer: B") = false /\
  @is_option ascii_case (lit "Answer: B") = false /\
  contains (lit "Answer:") (lit "Answer: B") = true /\
  @parse_quiz ascii_case (lit "What is 2+2?" ++ nl ++ lit "Answer: B")
  = Ok [ {| question := lit "What is 2+2?"; options := [];
            answer := None |} ] /\
  @parse_quiz ascii_case (lit "What is 2+2?" ++ nl ++ lit "(Answer: B)")
  = Ok [ {| question := lit "What is 2+2?"; options := [];
            answer := Some (lit "B") |} ].
Proof. repeat split. Qed.

End QuizClaims.

(** ** Summary pipeline *)

Section SummaryFacts.
Import App.
Context {CT : CaseTables}.

Lemma add_new_app (xs ys acc : list str) :
  add_new acc (xs ++ ys) = add_new (add_new acc xs) ys.
Proof.
  revert acc; induction xs as [|x xs IH]; intros acc; simpl;
    [reflexivity | apply IH].
Qed.

Lemma add_new_NoDup (bs acc : list str) :
  NoDup acc -> NoDup (add_new acc bs).
Proof.
  revert acc; induction bs as [|b bs IH]; intros acc Hacc; simpl;
    [exact Hacc|].
  apply IH. destruct (str_in b acc) eqn:E; [exact Hacc|].
  apply (NoDup_Add (a := b) (l := acc)).
  - rewrite <- (app_nil_r acc) at 1. apply Add_app.
  - split; [exact Hacc|]. intros Hin. apply str_in_In in Hin. congruence.
Qed.

(** The parser's own indexing never fails. *)
Lemma summarize_line_total (st : list str * list str) (line : str) :
  exists st', summarize_line st line = Ok st'.
Proof.
  destruct st as [bs sp]. unfold summarize_line.
  destruct (startswith (strip line) (lit "-")).
  - destruct (negb _ && negb _); eauto.
  - destruct (startswith (lower (strip line)) (lit "summary")); [|eauto].
    destruct (contains (lit ":") (strip line)) eqn:Hc; [|eauto].
    destruct (item_split_once (strip line) (lit ":"))
      as (pre & post & -> & _); [discriminate | exact Hc | simpl; eauto].
Qed.

(** One line adds its candidates to the bullets, first occurrences only. *)
Lemma summarize_line_bullets (bs sp bs' sp' : list str) (line : str) :
  summarize_line (bs, sp) line = Ok (bs', sp') ->
  bs' = add_new bs (line_candidates line).
Proof.
  unfold summarize_line, line_candidates.
  destruct (startswith (strip line) (lit "-")).
  - destruct (is_empty (strip (lstrip_chars (lit "- ") (strip line))));
      simpl; [congruence|].
    destruct (str_in _ bs); simpl; congruence.
  - destruct (startswith (lower (strip line)) (lit "summary"));
      [|simpl; congruence].
    destruct (contains (lit ":") (strip line)); [|simpl; congruence].
    destruct (item _ 1); simpl; congruence.
Qed.

Lemma summarize_lines_bullets (lines : list str) :
  forall bs sp bs' sp',
    summarize_lines (bs, sp) lines = Ok (bs', sp') ->
    bs' = add_new bs (flat_map line_candidates lines).
Proof.
  induction lines as [|line rest IH]; intros bs sp bs' sp';
    cbn [summarize_lines flat_map].
  - intros E. injection E as <- _. reflexivity.
  - destruct (summarize_line (bs, sp) line) as [[bs1 sp1]|e] eqn:E1;
      cbn [bind]; [|discriminate].
    intros E. apply summarize_line_bullets in E1. apply IH in E.
    now rewrite add_new_app, <- E1.
Qed.

Lemma summarize_lines_total (lines : list str) :
  forall st, exists st', summarize_lines st lines = Ok st'.
Proof.
  induction lines as [|line rest IH]; intros st; cbn [summarize_lines];
    [eauto|].
  destruct (summarize_line_total st line) as (st1 & ->). cbn [bind].
  apply IH.
Qed.


(** One line: the bullets take its candidates, the paragraphs its
    fragments. *)
Lemma summarize_line_state (bs sp bs' sp' : list str) (line : str) :
  summarize_line (bs, sp) line = Ok (bs', sp') ->
  bs' = add_new bs (line_candidates line) /\
  sp' = sp ++ line_fragments line.
Proof.
  intros H. split; [exact (summarize_line_bullets _ _ _ _ _ H)|].
  revert H. unfold summarize_line, line_fragments.
  destruct (startswith (strip line) (lit "-")).
  - destruct (negb _ && negb _); intros H; injection H as _ <-;
      now rewrite app_nil_r.
  - destruct (startswith (lower (strip line)) (lit "summary"));
      [|intros H; injection H as _ <-; now rewrite app_nil_r].
    destruct (contains (lit ":") (strip line)) eqn:Hc;
      [|intros H; injection H as _ <-; reflexivity].
    unfold item.
    destruct (nth_error (split (strip line) (lit ":") (Some 1%nat)) 1)
      as [frag|] eqn:En; cbn [bind]; [|discriminate].
    erewrite nth_error_nth by exact En.
    intros H; injection H as _ <-. reflexivity.
Qed.

Lemma summarize_lines_state (lines : list str) :
  forall bs sp bs' sp',
    summarize_lines (bs, sp) lines = Ok (bs', sp') ->
    bs' = add_new bs (flat_map line_candidates lines) /\
    sp' = sp ++ flat_map line_fragments lines.
Proof.
  induction lines as [|line rest IH]; intros bs sp bs' sp';
    cbn [summarize_lines flat_map].
  - intros E. injection E as <- <-. now rewrite app_nil_r.
  - destruct (summarize_line (bs, sp) line) as [[bs1 sp1]|e] eqn:E1;
      cbn [bind]; [|discriminate].
    intros E. apply summarize_line_state in E1. apply IH in E.
    destruct E1 as [-> ->]. destruct E as [-> ->].
    now rewrite add_new_app, app_assoc.
Qed.

(** The chunk loop, in full: the texts it read answer the prompts of a
    leading part of the chunks, in order; after none of them but the last
    were five bullets there; it stopped at the end of the chunks or with
    five bullets; and its state holds the first occurrences among their
    candidates and their summary fragments. *)
Lemma summarize_chunks_run (generate : generator) (chunks : list str) :
  forall bs sp bs' sp',
    summarize_chunks generate (bs, sp) chunks = Ok (bs', sp') ->
    exists outs,
      Forall2 (fun c out => generate (SUMMARY_PROMPT c) 256 = Ok out)
        (firstn (length outs) chunks) outs /\
      (forall k, (1 <= k < length outs)%nat ->
         (length (add_new bs (flat_map bullet_candidates (firstn k outs)))
          < 5)%nat) /\
      (length outs = length chunks \/
       (5 <= length (add_new bs (flat_map bullet_candidates outs)))%nat) /\
      bs' = add_new bs (flat_map bullet_candidates outs) /\
      sp' = sp ++ flat_map summary_fragments outs.
Proof.
  induction chunks as [|c rest IH]; intros bs sp bs' sp';
    cbn [summarize_chunks].
  - intros E. injection E as <- <-. exists [].
    split; [constructor|]. split; [cbn [length]; intros k Hk; lia|].
    split; [left; reflexivity|]. split; [reflexivity | now rewrite app_nil_r].
  - destruct (generate (SUMMARY_PROMPT c) 256) as [out|e] eqn:Eg;
      cbn [bind]; [|discriminate].
    destruct (summarize_lines (bs, sp) (splitlines out))
      as [[bs1 sp1]|e] eqn:El; cbn [bind]; [|discriminate].
    apply summarize_lines_state in El.
    change (flat_map line_candidates (splitlines out))
      with (bullet_candidates out) in El.
    change (flat_map line_fragments (splitlines out))
      with (summary_fragments out) in El.
    destruct El as [E1 E2]. cbn [fst].
    destruct (5 <=? length bs1)%nat eqn:E5.
    + intros E. injection E as <- <-. exists [out].
      split; [simpl; constructor; [exact Eg | constructor]|].
      split; [cbn [length]; intros k Hk; lia|].
      cbn [flat_map]. rewrite !app_nil_r.
      split; [right; rewrite <- E1; now apply Nat.leb_le|].
      split; assumption.
    + intros E. apply IH in E.
      destruct E as (outs & Houts & Hmin & Hstop & -> & ->).
      exists (out :: outs).
      split; [simpl; constructor; [exact Eg | exact Houts]|].
      split; [|split].
      * intros k Hk. cbn [length] in Hk.
        destruct k as [|k]; [lia|].
        cbn [firstn flat_map]. rewrite add_new_app, <- E1.
        destruct k as [|k].
        -- cbn [firstn flat_map add_new]. now apply Nat.leb_gt.
        -- apply Hmin. lia.
      * destruct Hstop as [Hl | H5].
        -- left. cbn [length]. now rewrite Hl.
        -- right. cbn [flat_map]. now rewrite add_new_app, <- E1.
      * cbn [flat_map]. rewrite add_new_app, app_assoc, <- E1, <- E2.
        split; reflexivity.
Qed.

(** The texts read are determined by the generator and the chunks. *)
Lemma prefix_answers_agree (llama : generator) (outs1 : list str) :
  forall chunks outs2,
    Forall2 (fun c out => llama (SUMMARY_PROMPT c) 256 = Ok out)
      (firstn (length outs1) chunks) outs1 ->
    Forall2 (fun c out => llama (SUMMARY_PROMPT c) 256 = Ok out)
      (firstn (length outs2) chunks) outs2 ->
    (length outs1 <= length outs2)%nat ->
    outs1 = firstn (length outs1) outs2.
Proof.
  induction outs1 as [|a outs1 IH]; intros chunks outs2 H1 H2 Hle;
    [reflexivity|].
  destruct outs2 as [|b outs2]; [cbn [length] in Hle; lia|].
  destruct chunks as [|c chunks]; [inversion H1|].
  cbn [length firstn] in *.
  inversion H1 as [|? ? ? ? Ha H1']; subst.
  inversion H2 as [|? ? ? ? Hb H2']; subst.
  assert (a = b) by congruence. subst b.
  f_equal. apply (IH chunks); [assumption | assumption | lia].
Qed.

Lemma texts_read_length (llama : generator) (chunks outs : list str) :
  texts_read llama chunks outs -> (length outs <= length chunks)%nat.
Proof.
  intros (H & _). apply Forall2_length in H.
  rewrite length_firstn in H. lia.
Qed.

Lemma texts_read_unique (llama : generator) (chunks outs1 outs2 : list str) :
  texts_read llama chunks outs1 -> texts_read llama chunks outs2 ->
  outs1 = outs2.
Proof.
  assert (Hlt : forall o1 o2,
             texts_read llama chunks o1 -> texts_read llama chunks o2 ->
             (length o1 < length o2)%nat -> False).
  { intros o1 o2 H1 H2 Hlt.
    pose proof (texts_read_length _ _ _ H2) as Hlen.
    destruct H1 as (F1 & _ & Hstop). destruct H2 as (F2 & Hmin & _).
    pose proof (prefix_answers_agree llama o1 chunks o2 F1 F2
                  (Nat.lt_le_incl _ _ Hlt)) as Ho.
    destruct Hstop as [Hl | H5]; [lia|].
    specialize (Hmin (length o1) Hlt). rewrite <- Ho in Hmin. lia. }
  intros H1 H2.
  destruct (Nat.lt_trichotomy (length outs1) (length outs2))
    as [Hl | [He | Hl]];
    [destruct (Hlt _ _ H1 H2 Hl) | | destruct (Hlt _ _ H2 H1 Hl)].
  destruct H1 as (F1 & _). destruct H2 as (F2 & _).
  rewrite (prefix_answers_agree llama outs1 chunks outs2 F1 F2) by lia.
  rewrite He. apply firstn_all.
Qed.

Lemma summarize_response_bullets (st : list str * list str) :
  bullets (summarize_response st) = firstn 5 (fst st).
Proof. destruct st; reflexivity. Qed.

(** A response of [summarize]: the generator is there, the chunks are those
    of the chunker on the request's text, and the response is built from
    the texts read. *)
Lemma summarize_run (get_llama : result generator) (payload : Dict)
  (resp : SummaryResponse) :
  summarize get_llama payload = Some (Ok resp) ->
  exists (llama : generator) (chunks outs : list str),
    get_llama = Ok llama /\
    Chunker.simple_chunk_text
      (str_or (dict_get payload (lit "text") [])
         (dict_get payload (lit "url_text") [])) 3200 = Some chunks /\
    texts_read llama chunks outs /\
    resp = summarize_response
             (first_occurrences (flat_map bullet_candidates outs),
              flat_map summary_fragments outs).
Proof.
  unfold summarize.
  destruct (is_empty (str_or _ _)); [discriminate|].
  destruct get_llama as [llama|e]; [|discriminate].
  destruct (Chunker.simple_chunk_text _ 3200) as [chunks|] eqn:Ec;
    [|discriminate].
  destruct (summarize_chunks llama ([], []) chunks) as [[bs sp]|e] eqn:E;
    cbn [bind]; [|discriminate].
  intros H.
  assert (Hr : resp = summarize_response (bs, sp)) by congruence.
  subst resp. clear H.
  apply summarize_chunks_run in E.
  destruct E as (outs & Houts & Hmin & Hstop & -> & ->).
  exists llama, chunks, outs.
  split; [reflexivity|]. split; [reflexivity|]. split; [|reflexivity].
  split; [exact Houts|]. split; [|exact Hstop].
  intros k Hk. destruct k as [|k]; [cbn; lia|]. apply Hmin. lia.
Qed.

End SummaryFacts.

Section SummaryClaims.
Import App.

(** C4: whatever the generated texts, the bullet list returned by the
    summary pipeline has at most 5 entries and no duplicate, in insertion
    order: with the chunks the chunker makes of the request's text, and the
    generated texts the loop reads for them (the generator's answers, in
    chunk order, up to the first one that brings the bullets to five), it
    is the first five of the first occurrences among the bullet candidates
    of these texts, taken in chunk order and line order. *)
Theorem summary_bullets_invariant {CT : CaseTables}
  (get_llama : result generator) (payload : Dict) (resp : SummaryResponse) :
  summarize get_llama payload = Some (Ok resp) ->
  (length (bullets resp) <= 5)%nat /\
  NoDup (bullets resp) /\
  exists (llama : generator) (chunks outs : list str),
    get_llama = Ok llama /\
    Chunker.simple_chunk_text
      (str_or (dict_get payload (lit "text") [])
         (dict_get payload (lit "url_text") [])) 3200 = Some chunks /\
    texts_read llama chunks outs /\
    bullets resp
    = firstn 5 (first_occurrences (flat_map bullet_candidates outs)).
Proof.
  intros H. apply summarize_run in H.
  destruct H as (llama & chunks & outs & Hg & Hc & Hr & ->).
  rewrite summarize_response_bullets. cbn [fst].
  split; [apply firstn_le_length|]. split.
  - apply (NoDup_app_remove_r _
             (skipn 5 (first_occurrences (flat_map bullet_candidates outs)))).
    rewrite firstn_skipn. apply add_new_NoDup. constructor.
  - exists llama, chunks, outs. auto.
Qed.

End SummaryClaims.

(** The spec's example for the summary parser. *)
Example summarize_spec_example :
  @App.summarize ascii_case
    (Ok (fun _ _ =>
           Ok (lit "- A" ++ App.nl ++ lit "- B" ++ App.nl ++ lit "- A"
               ++ App.nl ++ lit "Summary: Photosynthesis is cool.")))
    (App.text_payload (lit "notes"))
  = Some (Ok {| App.bullets := [lit "A"; lit "B"];
                App.summary := lit "Photosynthesis is cool." |}).
Proof. reflexivity. Qed.

(** The spec's example for the quiz parser. *)
Example quiz_spec_example :
  @App.parse_quiz ascii_case
    (lit "What is 2+2?" ++ App.nl ++ lit "A) 3" ++ App.nl
     ++ lit "B) 4 (Answer: B)" ++ App.nl ++ lit "C) 5" ++ App.nl
     ++ lit "D) 6")
  = Ok [ {| App.question := lit "What is 2+2?";
            App.options :=
              [lit "A) 3"; lit "B) 4 (Answer: B)"; lit "C) 5"; lit "D) 6"];
            App.answer := Some (lit "B") |} ].
Proof. reflexivity. Qed.

Section SummaryExamples.
Import App Samples.

Lemma summary_bullets_invariant_witness :
  let resp :=
    {| bullets := [lit "a"; lit "b"; lit "c"; lit "d"; lit "e"];
       summary := [] |} in
  let payload := text_payload (lit "notes") in
  @summarize ascii_case (Ok (fun _ _ => Ok eight_bullets)) payload
  = Some (Ok resp) /\
  ((length (bullets resp) <= 5)%nat /\
   NoDup (bullets resp) /\
   exists (llama : generator) (chunks outs : list str),
     Ok (fun _ _ => Ok eight_bullets) = Ok llama /\
     Chunker.simple_chunk_text
       (str_or (dict_get payload (lit "text") [])
          (dict_get payload (lit "url_text") [])) 3200 = Some chunks /\
     texts_read llama chunks outs /\
     bullets resp
     = firstn 5 (first_occurrences (flat_map bullet_candidates outs))).
Proof.
  split; [reflexivity|].
  apply (@summary_bullets_invariant ascii_case
           (Ok (fun _ _ => Ok eight_bullets)) (text_payload (lit "notes"))).
  reflexivity.
Defined.

(** Two chunks with different generated texts: the bullets come in chunk
    order. *)
Example bullets_in_chunk_order :
  let llama : generator :=
    fun prompt _ =>
      if contains (lit "first part") prompt
      then Ok (lit "- x" ++ nl ++ lit "- y")
      else Ok (lit "- z" ++ nl ++ lit "- x") in
  @summarize ascii_case (Ok llama)
    (text_payload (lit "first part" ++ nl ++ lit "second"))
  = Some (Ok {| bullets := [lit "x"; lit "y"; lit "z"]; summary := [] |}).
Proof. vm_compute. reflexivity. Qed.

(** The loop stops reading at the chunk that brings the bullets to five:
    the generator is not asked about the second chunk, on which it would
    fail. *)
Example five_bullets_stop_reading :
  let llama : generator :=
    fun prompt _ =>
      if contains (lit "first part") prompt
      then Ok eight_bullets
      else Raise (RuntimeError (lit "not asked")) in
  @summarize ascii_case (Ok llama)
    (text_payload (lit "first part" ++ nl ++ lit "second"))
  = Some (Ok {| bullets := [lit "a"; lit "b"; lit "c"; lit "d"; lit "e"];
                summary := [] |}).
Proof. vm_compute. reflexivity. Qed.


End SummaryExamples.

(** ** Generation invoker *)

Section ShlexFacts.
Import Shlex.

Local Abbreviation mk := Build_lexer.

Lemma plain_inv (c : N) :
  plain c = true ->
  char_in whitespace c = false /\ char_in quotes c = false /\
  char_in escape c = false.
Proof.
  unfold plain. rewrite negb_true_iff, !orb_false_iff. tauto.
Qed.

Lemma safe_is_plain (c : N) : is_safe c = true -> plain c = true.
Proof.
  intros H. unfold plain, char_in, whitespace, quotes, escape. simpl.
  destruct (N.eqb_spec c 32) as [->|_]; [discriminate H|].
  destruct (N.eqb_spec c 9) as [->|_]; [discriminate H|].
  destruct (N.eqb_spec c 13) as [->|_]; [discriminate H|].
  destruct (N.eqb_spec c 10) as [->|_]; [discriminate H|].
  destruct (N.eqb_spec c 39) as [->|_]; [discriminate H|].
  destruct (N.eqb_spec c 34) as [->|_]; [discriminate H|].
  destruct (N.eqb_spec c 92) as [->|_]; [discriminate H|].
  reflexivity.
Qed.

Lemma lex_char_word_plain es tk qd toks (c : N) :
  plain c = true ->
  lex_char (mk SWord es tk qd toks) c = mk SWord es (tk ++ [c]) qd toks.
Proof.
  intros H. apply plain_inv in H. destruct H as (Hw & Hq & He).
  unfold lex_char. cbn [state]. now rewrite Hw, Hq, He.
Qed.

Lemma lex_char_blank_plain es tk qd toks (c : N) :
  plain c = true ->
  lex_char (mk SBlank es tk qd toks) c = mk SWord es [c] qd toks.
Proof.
  intros H. apply plain_inv in H. destruct H as (Hw & Hq & He).
  unfold lex_char. cbn [state]. now rewrite Hw, Hq, He.
Qed.

Lemma lex_char_squote_other es tk qd toks (c : N) :
  c <> 39%N ->
  lex_char (mk (SQuote 39) es tk qd toks) c
  = mk (SQuote 39) es (tk ++ [c]) true toks.
Proof.
  intros H. unfold lex_char. cbn [state].
  destruct (N.eqb_spec c 39); [contradiction|].
  now rewrite andb_false_r.
Qed.

(** A run of plain characters extends the word being read. *)
Lemma lex_word_plain (s : str) :
  forall es tk qd toks,
    forallb plain s = true ->
    fold_left lex_char s (mk SWord es tk qd toks)
    = mk SWord es (tk ++ s) qd toks.
Proof.
  induction s as [|c s IH]; intros es tk qd toks H; cbn [fold_left].
  - now rewrite app_nil_r.
  - cbn [forallb] in H. apply andb_true_iff in H. destruct H as [Hc Hs].
    rewrite lex_char_word_plain by exact Hc.
    rewrite IH by exact Hs. now rewrite <- app_assoc.
Qed.

(** A non-empty run of plain characters read from the blank state is one
    word. *)
Lemma lex_blank_plain (s : str) es tk qd toks :
  s <> [] -> forallb plain s = true ->
  fold_left lex_char s (mk SBlank es tk qd toks) = mk SWord es s qd toks.
Proof.
  destruct s as [|c s]; [congruence|]. intros _ H. cbn [fold_left].
  cbn [forallb] in H. apply andb_true_iff in H. destruct H as [Hc Hs].
  rewrite lex_char_blank_plain by exact Hc.
  now rewrite lex_word_plain by exact Hs.
Qed.

(** Inside single quotes, the text with each quote replaced by the five
    characters of line 3 of [quote] is read back as the text. *)
Lemma lex_squoted (s : str) :
  forall es tk qd toks,
    exists qd',
      fold_left lex_char (replace_char 39 [39; 34; 39; 34; 39]%N s)
        (mk (SQuote 39) es tk qd toks)
      = mk (SQuote 39) es (tk ++ s) qd' toks.
Proof.
  induction s as [|c s IH]; intros es tk qd toks.
  - exists qd. simpl. now rewrite app_nil_r.
  - unfold replace_char. cbn [flat_map]. fold (replace_char 39 [39; 34; 39; 34; 39]%N s).
    rewrite fold_left_app.
    destruct (N.eqb_spec c 39) as [-> | Hc].
    + change (fold_left lex_char [39; 34; 39; 34; 39]%N
                (mk (SQuote 39) es tk qd toks))
        with (mk (SQuote 39) es (tk ++ [39%N]) true toks).
      destruct (IH es (tk ++ [39%N]) true toks) as (qd' & ->).
      exists qd'. now rewrite <- app_assoc.
    + cbn [fold_left]. rewrite lex_char_squote_other by exact Hc.
      destruct (IH es (tk ++ [c]) true toks) as (qd' & ->).
      exists qd'. now rewrite <- app_assoc.
Qed.

(** [quote(s)], read from the blank state, is the single word [s]. *)
Lemma lex_quote (s : str) es toks :
  exists qd,
    fold_left lex_char (quote s) (mk SBlank es [] false toks)
    = mk SWord es s qd toks /\
    has_token (mk SWord es s qd toks) = true.
Proof.
  unfold quote. destruct s as [|c r]; [exists true; split; reflexivity|].
  destruct (forallb is_safe (c :: r)) eqn:Hsafe.
  - exists false. split; [|reflexivity].
    apply lex_blank_plain; [discriminate|].
    rewrite forallb_forall in *. intros x Hx. apply safe_is_plain. auto.
  - rewrite !fold_left_app.
    change (fold_left lex_char [39%N] (mk SBlank es [] false toks))
      with (mk (SQuote 39) es [] false toks).
    destruct (lex_squoted (c :: r) es [] false toks) as (qd' & ->).
    exists true. split; reflexivity.
Qed.

(** A blank after a finished word delivers the word. *)
Lemma lex_char_space_delivers es tk qd toks :
  has_token (mk SWord es tk qd toks) = true ->
  lex_char (mk SWord es tk qd toks) 32
  = mk SBlank SBlank [] false (toks ++ [tk]).
Proof.
  intros H. unfold lex_char. cbn [state]. change (char_in whitespace 32) with true.
  cbv iota. now rewrite H.
Qed.

Lemma str_of_uint_safe (d : Decimal.uint) :
  forallb is_safe (lit (DecimalString.NilEmpty.string_of_uint d)) = true.
Proof.
  induction d; cbn [DecimalString.NilEmpty.string_of_uint]; try reflexivity;
    unfold lit in *; cbn [list_ascii_of_string map forallb];
    rewrite IHd; reflexivity.
Qed.

(** [str(n)] is a non-empty run of digits, after a hyphen for a negative
    number. *)
Lemma str_of_Z_safe (n : Z) :
  str_of_Z n <> [] /\ forallb is_safe (str_of_Z n) = true.
Proof.
  unfold str_of_Z, DecimalString.NilZero.string_of_int.
  destruct (Z.to_int n) as [d | d].
  - unfold DecimalString.NilZero.string_of_uint.
    destruct d; try (split; [discriminate | apply str_of_uint_safe]).
    split; [discriminate | reflexivity].
  - unfold DecimalString.NilZero.string_of_uint.
    split; [discriminate|].
    destruct d;
      try (unfold lit; cbn [list_ascii_of_string map forallb];
           apply (str_of_uint_safe _)).
    reflexivity.
Qed.

(** The command string of line 25 is split back into its seven parts: the
    model path and the prompt each come out as one argument, unchanged. *)
Lemma split_run_llama_cmd (model prompt : str) (n_predict : Z) :
  Shlex.split (Llama.run_llama_cmd model prompt n_predict)
  = Ok [ Llama.LLAMA_MAIN_BIN; lit "-m"; model; lit "-p"; prompt;
         lit "-n"; str_of_Z n_predict ].
Proof.
  unfold Shlex.split, Llama.run_llama_cmd.
  rewrite !fold_left_app.
  change (fold_left lex_char (lit " -m ")
            (fold_left lex_char Llama.LLAMA_MAIN_BIN initial))
    with (mk SBlank SBlank [] false [Llama.LLAMA_MAIN_BIN; lit "-m"]).
  destruct (lex_quote model SBlank [Llama.LLAMA_MAIN_BIN; lit "-m"])
    as (q1 & -> & H1).
  change (lit " -p ") with (32%N :: lit "-p "). cbn [fold_left].
  rewrite lex_char_space_delivers by exact H1.
  change (fold_left lex_char (lit "-p ")
            (mk SBlank SBlank [] false
               ([Llama.LLAMA_MAIN_BIN; lit "-m"] ++ [model])))
    with (mk SBlank SBlank [] false
            [Llama.LLAMA_MAIN_BIN; lit "-m"; model; lit "-p"]).
  destruct (lex_quote prompt SBlank
              [Llama.LLAMA_MAIN_BIN; lit "-m"; model; lit "-p"])
    as (q2 & -> & H2).
  change (lit " -n ") with (32%N :: lit "-n "). cbn [fold_left].
  rewrite lex_char_space_delivers by exact H2.
  change (fold_left lex_char (lit "-n ")
            (mk SBlank SBlank [] false
               ([Llama.LLAMA_MAIN_BIN; lit "-m"; model; lit "-p"]
                ++ [prompt])))
    with (mk SBlank SBlank [] false
            [Llama.LLAMA_MAIN_BIN; lit "-m"; model; lit "-p"; prompt;
             lit "-n"]).
  destruct (str_of_Z_safe n_predict) as [Hne Hsafe].
  rewrite lex_blank_plain.
  - unfold lex_eof. cbn [state]. unfold has_token. cbn [token quoted tokens].
    destruct (str_of_Z n_predict); [congruence | reflexivity].
  - exact Hne.
  - rewrite forallb_forall in *. intros x Hx. apply safe_is_plain. auto.
Qed.

End ShlexFacts.

Section InvokerClaims.
Import Llama Samples.

(** [run_llama_once] on a nonzero exit status: the error carries the
    diagnostic output with the surrounding whitespace removed. *)
Lemma run_llama_once_nonzero_exit (path_exists : str -> bool)
  (run : subprocess_run) (prompt model : str) (n_predict : Z)
  (proc : CompletedProcess) :
  model <> [] -> path_exists model = true ->
  run [LLAMA_MAIN_BIN; lit "-m"; model; lit "-p"; prompt; lit "-n";
       str_of_Z n_predict] = Ok proc ->
  returncode proc <> 0 ->
  run_llama_once path_exists run prompt (Some model) n_predict
  = Raise (RuntimeError (lit "llama.cpp failed: " ++ strip (stderr proc))).
Proof.
  intros Hm He Hrun Hrc. unfold run_llama_once.
  destruct model as [|c m]; [congruence|]. cbn [is_empty].
  rewrite He, split_run_llama_cmd. cbn [negb bind]. rewrite Hrun. cbn [bind].
  destruct (Z.eqb_spec (returncode proc) 0); [contradiction | reflexivity].
Qed.

(** C5: when the external process ends with a nonzero status, [generate]
    raises a runtime error whose message ends with the process's standard
    error text, so no generated text is returned; when the status is zero
    it returns the parsed standard output. *)
Theorem generate_fails_on_nonzero_exit (run : subprocess_run)
  (self : LlamaWrapper) (prompt : str) (n_predict : Z) (temperature : pyfloat)
  (top_k : Z) (top_p : pyfloat) (proc : CompletedProcess) :
  run (generate_cmd self prompt n_predict temperature top_k top_p) = Ok proc ->
  (returncode proc <> 0 ->
   exists msg,
     generate run self prompt n_predict temperature top_k top_p
     = Raise (RuntimeError msg) /\
     msg = lit "llama-cli failed (rc=" ++ str_of_Z (returncode proc)
           ++ lit "):" ++ [10%N] ++ stderr proc /\
     contains (stderr proc) msg = true) /\
  (returncode proc = 0 ->
   generate run self prompt n_predict temperature top_k top_p
   = Ok (_parse_output (stdout proc))).
Proof.
  intros Hrun. unfold generate. rewrite Hrun. cbn [bind]. split; intros Hrc.
  - destruct (Z.eqb_spec (returncode proc) 0); [contradiction|].
    eexists. split; [reflexivity|]. split; [reflexivity|].
    rewrite !app_assoc. apply contains_suffix.
  - rewrite Hrc. reflexivity.
Qed.

Lemma generate_fails_on_nonzero_exit_witness :
  let proc := {| returncode := 1; stdout := lit "partial"; stderr := lit "boom" |} in
  failing_run
    (generate_cmd some_wrapper (lit "hi") 64 default_temperature 40
       default_top_p) = Ok proc /\
  ((returncode proc <> 0 ->
    exists msg,
      generate failing_run some_wrapper (lit "hi") 64 default_temperature 40
        default_top_p = Raise (RuntimeError msg) /\
      msg = lit "llama-cli failed (rc=" ++ str_of_Z (returncode proc)
            ++ lit "):" ++ [10%N] ++ stderr proc /\
      contains (stderr proc) msg = true) /\
   (returncode proc = 0 ->
    generate failing_run some_wrapper (lit "hi") 64 default_temperature 40
      default_top_p = Ok (_parse_output (stdout proc)))).
Proof.
  split; [reflexivity|].
  apply (generate_fails_on_nonzero_exit failing_run some_wrapper (lit "hi") 64
           default_temperature 40 default_top_p).
  reflexivity.
Defined.

(** C6: the prompt reaches the external process as one element of the
    argument list, unchanged, whatever characters it holds.  [generate]
    runs the list it builds, in which the prompt is the element after [-p];
    [run_llama_once] builds a command string with [shlex.quote] and splits
    it with [shlex.split], and what it runs is again a list in which the
    prompt is the element after [-p]. *)
Theorem prompt_is_one_argument (run : subprocess_run) (prompt : str)
  (n_predict : Z) :
  (forall (self : LlamaWrapper) (temperature : pyfloat) (top_k : Z)
          (top_p : pyfloat),
     generate run self prompt n_predict temperature top_k top_p
     = (proc <- run [ binary_path self; lit "-m"; model_path self;
                      lit "-p"; prompt; lit "-n"; str_of_Z n_predict;
                      lit "--temp"; float_str temperature;
                      lit "--top-k"; str_of_Z top_k;
                      lit "--top-p"; float_str top_p ] ;;
        if negb (returncode proc =? 0) then
          Raise (RuntimeError
                   (lit "llama-cli failed (rc=" ++ str_of_Z (returncode proc)
                    ++ lit "):" ++ [10%N] ++ stderr proc))
        else Ok (_parse_output (stdout proc)))) /\
  (forall (path_exists : str -> bool) (model_path : option str),
     let model :=
       match model_path with
       | Some m => if is_empty m then MODEL_PATH else m
       | None => MODEL_PATH
       end in
     run_llama_once path_exists run prompt model_path n_predict
     = if negb (path_exists model) then
         Raise (FileNotFoundError
                  (lit "Model file not found at " ++ model
                   ++ lit ". Place a quantized model there."))
       else
         (result <- run [ LLAMA_MAIN_BIN; lit "-m"; model; lit "-p"; prompt;
                          lit "-n"; str_of_Z n_predict ] ;;
          if negb (returncode result =? 0) then
            Raise (RuntimeError
                     (lit "llama.cpp failed: " ++ strip (stderr result)))
          else Ok (strip (stdout result)))).
Proof.
  split; [reflexivity|].
  intros path_exists model_path model. unfold run_llama_once. fold model.
  destruct (path_exists model); cbn [negb]; [|reflexivity].
  now rewrite split_run_llama_cmd.
Qed.

(** A prompt with quotes, blanks, a line break, a backslash and shell
    metacharacters comes out of the command string as it went in. *)
Example split_hostile_prompt :
  Shlex.split
    (run_llama_cmd (lit "my model.gguf")
       (lit "it's; rm -rf $HOME | `x` \\ " ++ [34; 10]%N ++ lit "&& done") 12)
  = Ok [ lit "./main"; lit "-m"; lit "my model.gguf"; lit "-p";
         lit "it's; rm -rf $HOME | `x` \\ " ++ [34; 10]%N ++ lit "&& done";
         lit "-n"; lit "12" ].
Proof. reflexivity. Qed.

End InvokerClaims.

(** ** The endpoints return *)

Section EndpointFacts.
Import App.
Context {CT : CaseTables}.

Lemma simple_chunk_text_returns (text : str) (max_chars : Z) :
  0 < max_chars -> exists chunks, simple_chunk_text text max_chars = Some chunks.
Proof.
  intros Hm.
  destruct (simple_chunk_run text max_chars Hm _ (le_n _)) as (bs & _ & E & _).
  eexists. exact E.
Qed.

(** With the window of 3200 characters, [summarize] is never left inside
    the chunker's loop. *)
Lemma summarize_returns (get_llama : result generator) (payload : Dict) :
  exists r, summarize get_llama payload = Some r.
Proof.
  unfold summarize.
  destruct (is_empty (str_or _ _)); [eauto|].
  destruct get_llama as [llama|e]; [|eauto].
  destruct (simple_chunk_text_returns
              (str_or (dict_get payload (lit "text") [])
                 (dict_get payload (lit "url_text") [])) 3200 eq_refl)
    as (chunks & ->).
  eauto.
Qed.

Lemma summarize_chunks_total (generate : generator) (chunks : list str) :
  (forall prompt n, exists out, generate prompt n = Ok out) ->
  forall st, exists st', summarize_chunks generate st chunks = Ok st'.
Proof.
  intros Hgen. induction chunks as [|c rest IH]; intros st;
    cbn [summarize_chunks]; [eauto|].
  destruct (Hgen (SUMMARY_PROMPT c) 256) as (out & ->). cbn [bind].
  destruct (summarize_lines_total (splitlines out) st) as (st1 & ->).
  cbn [bind]. destruct (5 <=? length (fst st1))%nat; [eauto | apply IH].
Qed.

(** When the wrapper is available and every generation succeeds, a request
    with text gets a summary: parsing itself never raises. *)
Lemma summarize_succeeds (llama : generator) (payload : Dict) :
  str_or (dict_get payload (lit "text") [])
    (dict_get payload (lit "url_text") []) <> [] ->
  (forall prompt n, exists out, llama prompt n = Ok out) ->
  exists resp, summarize (Ok llama) payload = Some (Ok resp).
Proof.
  intros Hne Hgen. unfold summarize.
  destruct (str_or _ _) as [|c t] eqn:Et; [congruence|]. cbn [is_empty].
  destruct (simple_chunk_text_returns (c :: t) 3200 eq_refl) as (chunks & ->).
  destruct (summarize_chunks_total llama chunks Hgen ([], [])) as (st & ->).
  cbn [bind]. eauto.
Qed.

(** [quiz] likewise returns; with text and a wrapper, its answer is the
    response built from the generated text of one prompt. *)
Lemma quiz_endpoint_returns (get_llama : result generator) (payload : Dict) :
  exists r, quiz_endpoint get_llama payload = Some r.
Proof.
  unfold quiz_endpoint.
  destruct (is_empty (dict_get payload (lit "text") [])); [eauto|].
  destruct get_llama as [llama|e]; [|eauto].
  destruct (simple_chunk_text_returns (dict_get payload (lit "text") [])
              3200 eq_refl) as (chunks & ->).
  eauto.
Qed.

Lemma quiz_endpoint_generated (llama : generator) (payload : Dict) :
  dict_get payload (lit "text") [] <> [] ->
  exists content,
    quiz_endpoint (Ok llama) payload
    = Some (out <- llama (QUIZ_PROMPT content) 512 ;; quiz_response out).
Proof.
  intros Hne. unfold quiz_endpoint.
  destruct (dict_get payload (lit "text") []) as [|c t] eqn:Et;
    [congruence|]. cbn [is_empty].
  destruct (simple_chunk_text_returns (c :: t) 3200 eq_refl) as (chunks & ->).
  eauto.
Qed.

End EndpointFacts.

(** * Further properties *)

(** ** Trimming *)

Section TrimFacts.

Variable p : N -> bool.

Lemma dropwhile_greedy (s : str) :
  exists run,
    s = run ++ dropwhile p s /\ forallb p run = true /\
    match dropwhile p s with [] => True | c :: _ => p c = false end.
Proof.
  induction s as [|c r (run & E & Hrun & Hhead)]; simpl.
  - exists []. auto.
  - destruct (p c) eqn:Hc.
    + exists (c :: run). simpl. rewrite Hc, Hrun. repeat split; [|exact Hhead].
      now rewrite <- E.
    + exists []. auto.
Qed.

Lemma dropwhile_nil_iff (s : str) :
  dropwhile p s = [] <-> forallb p s = true.
Proof.
  induction s as [|c r IH]; simpl; [tauto|].
  destruct (p c); simpl; [exact IH | split; discriminate].
Qed.

(** [rstrip] keeps a leading part and drops a run of the class. *)
Lemma rstrip_by_split (s : str) :
  exists run,
    s = rstrip_by p s ++ run /\ forallb p run = true /\
    match rev (rstrip_by p s) with [] => True | c :: _ => p c = false end.
Proof.
  unfold rstrip_by.
  destruct (dropwhile_greedy (rev s)) as (run & E & Hrun & Hhead).
  exists (rev run). rewrite rev_involutive. repeat split.
  - rewrite <- rev_app_distr, <- E. now rewrite rev_involutive.
  - rewrite forallb_forall in *. intros x Hx. apply Hrun.
    now apply in_rev.
  - exact Hhead.
Qed.

Lemma strip_by_trimmed (s : str) : trimmed p (strip_by p s).
Proof.
  unfold trimmed, strip_by, lstrip_by.
  destruct (dropwhile_greedy s) as (_ & _ & _ & Hhead).
  destruct (rstrip_by_split (dropwhile p s)) as (run & E & _ & Hlast).
  split; [|exact Hlast].
  destruct (rstrip_by p (dropwhile p s)) as [|c r]; [exact I|].
  rewrite E in Hhead. exact Hhead.
Qed.

(** Trimming gives a contiguous part of the text. *)
Lemma strip_by_split (s : str) :
  exists before after,
    s = before ++ strip_by p s ++ after /\
    forallb p before = true /\ forallb p after = true.
Proof.
  unfold strip_by, lstrip_by.
  destruct (dropwhile_greedy s) as (before & E1 & H1 & _).
  destruct (rstrip_by_split (dropwhile p s)) as (after & E2 & H2 & _).
  exists before, after. repeat split; [|exact H1|exact H2].
  now rewrite <- E2.
Qed.

Lemma strip_by_length (s : str) : (length (strip_by p s) <= length s)%nat.
Proof.
  destruct (strip_by_split s) as (before & after & E & _).
  rewrite E at 2. rewrite !length_app. lia.
Qed.

Lemma strip_by_nil_iff (s : str) :
  strip_by p s = [] <-> forallb p s = true.
Proof.
  split.
  - intros E. destruct (strip_by_split s) as (before & after & Es & Hb & Ha).
    rewrite E in Es. rewrite Es, forallb_app, Hb. exact Ha.
  - intros H. unfold strip_by, lstrip_by.
    apply dropwhile_nil_iff in H. now rewrite H.
Qed.

End TrimFacts.

(** ** Searching backwards *)

Section RfindFacts.

Lemma startswith_single (t : str) (c : N) :
  startswith t [c] = true <-> hd_error t = Some c.
Proof.
  destruct t as [|x t]; simpl; [split; discriminate|].
  rewrite startswith_nil, andb_true_r, N.eqb_eq. split; congruence.
Qed.

Lemma rfind_from_spec (s : str) (c : N) (lo : Z) (n : nat) :
  0 <= lo ->
  (rfind_from s [c] lo n = -1 /\
   forall j, lo <= j < lo + Z.of_nat n -> ~ char_at s j c) \/
  (lo <= rfind_from s [c] lo n < lo + Z.of_nat n /\
   char_at s (rfind_from s [c] lo n) c /\
   forall j, rfind_from s [c] lo n < j < lo + Z.of_nat n -> ~ char_at s j c).
Proof.
  intros Hlo. induction n as [|n IH]; [left; split; [reflexivity | lia]|].
  cbn [rfind_from].
  destruct (startswith (skipn (Z.to_nat (lo + Z.of_nat n)) s) [c]) eqn:Hs.
  - right. apply startswith_single in Hs. rewrite hd_error_skipn in Hs.
    split; [lia|]. split; [exact Hs | lia].
  - assert (Hk : ~ char_at s (lo + Z.of_nat n) c).
    { unfold char_at. rewrite <- hd_error_skipn, <- startswith_single.
      congruence. }
    assert (Hstep : forall j, lo + Z.of_nat n <= j < lo + Z.of_nat (S n) ->
                              ~ char_at s j c).
    { intros j Hj. replace j with (lo + Z.of_nat n) by lia. exact Hk. }
    destruct IH as [(E & Hno) | (Hr & Hat & Hno)].
    + left. split; [exact E|]. intros j Hj.
      destruct (Z_lt_le_dec j (lo + Z.of_nat n)); [apply Hno | apply Hstep];
        lia.
    + right. split; [lia|]. split; [exact Hat|]. intros j Hj.
      destruct (Z_lt_le_dec j (lo + Z.of_nat n)); [apply Hno | apply Hstep];
        lia.
Qed.

(** [s.rfind(c, start, end)] for a character [c] and bounds inside the
    string: the last index of [c] in the range, or -1 when there is none. *)
Lemma rfind_spec (s : str) (c : N) (start end_ : Z) :
  0 <= start -> 0 <= end_ <= len s ->
  (rfind s [c] start end_ = -1 /\
   forall j, start <= j < end_ -> ~ char_at s j c) \/
  (start <= rfind s [c] start end_ < end_ /\
   char_at s (rfind s [c] start end_) c /\
   forall j, rfind s [c] start end_ < j < end_ -> ~ char_at s j c).
Proof.
  intros Hs He. unfold rfind.
  rewrite adjust_slice_id, adjust_low_id by lia.
  change (len [c]) with 1.
  destruct (Z.ltb_spec (end_ - start) 1); [left; split; [reflexivity | lia]|].
  destruct (rfind_from_spec s c start (Z.to_nat (end_ - start - 1 + 1)) Hs)
    as [(E & Hno) | (Hr & Hat & Hno)].
  - left. split; [exact E|]. intros j Hj. apply Hno. lia.
  - right. split; [lia|]. split; [exact Hat|]. intros j Hj. apply Hno. lia.
Qed.

Lemma slice_length (s : str) (a b : Z) :
  0 <= a -> a <= b -> b <= len s -> len (slice s a b) = b - a.
Proof.
  intros Ha Hab Hb. unfold slice, len in *.
  rewrite !adjust_slice_id by lia.
  rewrite length_firstn, length_skipn. lia.
Qed.

End RfindFacts.

(** ** More on the chunker *)

Section ChunkerMore.

Variable text : str.
Variable max_chars : Z.
Hypothesis max_chars_positive : 0 < max_chars.

(** One iteration stays inside its window. *)
Lemma split_point_window (start : Z) :
  0 <= start < len text ->
  start < split_point text max_chars start
        <= Z.min (start + max_chars) (len text).
Proof.
  intros Hs. unfold split_point.
  set (end_ := Z.min (start + max_chars) (len text)).
  assert (He : start < end_ <= len text) by (unfold end_; lia).
  assert (H1 := rfind_range text newline start end_).
  assert (H2 := rfind_range text period start end_).
  revert H1 H2.
  generalize (rfind text newline start end_) (rfind text period start end_).
  intros r1 r2 H1 H2.
  specialize (H1 ltac:(lia) ltac:(lia) eq_refl).
  specialize (H2 ltac:(lia) ltac:(lia) eq_refl).
  destruct (Z.leb_spec r1 start); cbv iota.
  - destruct (Z.leb_spec r2 start); lia.
  - destruct (Z.leb_spec r1 start); lia.
Qed.

(** What one iteration chooses: the last line break after the cursor inside
    the window; failing that, the last full stop after the cursor inside
    the window; failing that, the end of the window.  A separator at the
    cursor itself does not count. *)
Lemma split_point_choice (start : Z) :
  0 <= start < len text ->
  let end_ := Z.min (start + max_chars) (len text) in
  let sp := split_point text max_chars start in
  (start < sp < end_ /\ char_at text sp 10 /\
   forall j, sp < j < end_ -> ~ char_at text j 10) \/
  ((forall j, start < j < end_ -> ~ char_at text j 10) /\
   start < sp < end_ /\ char_at text sp 46 /\
   forall j, sp < j < end_ -> ~ char_at text j 46) \/
  ((forall j, start < j < end_ ->
      ~ char_at text j 10 /\ ~ char_at text j 46) /\
   sp = end_).
Proof.
  intros Hs end_ sp. unfold sp, split_point. fold end_.
  assert (He : start < end_ <= len text) by (unfold end_; lia).
  assert (H1 := rfind_spec text 10 start end_ ltac:(lia) ltac:(lia)).
  assert (H2 := rfind_spec text 46 start end_ ltac:(lia) ltac:(lia)).
  change [10%N] with newline in H1. change [46%N] with period in H2.
  revert H1 H2.
  generalize (rfind text newline start end_) (rfind text period start end_).
  intros r1 r2 H1 H2.
  assert (N1 : r1 <= start ->
               forall j, start < j < end_ -> ~ char_at text j 10).
  { intros Hr j Hj. destruct H1 as [(_ & Hno) | (_ & _ & Hno)];
      apply Hno; lia. }
  assert (N2 : r2 <= start ->
               forall j, start < j < end_ -> ~ char_at text j 46).
  { intros Hr j Hj. destruct H2 as [(_ & Hno) | (_ & _ & Hno)];
      apply Hno; lia. }
  destruct (Z.leb_spec r1 start) as [L1 | G1]; cbv iota.
  - destruct (Z.leb_spec r2 start) as [L2 | G2].
    + right. right. split; [|reflexivity]. intros j Hj. split; auto.
    + right. left. split; [auto|].
      destruct H2 as [(E & _) | (Hr & Hat & Hno)]; [lia|].
      split; [lia|]. split; assumption.
  - destruct (Z.leb_spec r1 start); [lia|]. left.
    destruct H1 as [(E & _) | (Hr & Hat & Hno)]; [lia|].
    split; [lia|]. split; assumption.
Qed.

(** Every interval the loop visits starts inside the text and ends where
    [split_point] says. *)
Lemma chunk_bounds_steps (fuel : nat) :
  forall (start : Z) (bs : list (Z * Z)),
    0 <= start ->
    chunk_bounds fuel text max_chars start = Some bs ->
    Forall (fun b => 0 <= fst b < len text /\
                     snd b = split_point text max_chars (fst b)) bs.
Proof.
  induction fuel as [|fuel IH]; intros start bs Hs; cbn [chunk_bounds];
    destruct (Z.ltb_spec start (len text)) as [Hlt | Hge];
    try discriminate; try (intros E; injection E as <-; constructor).
  destruct (chunk_bounds fuel text max_chars
              (split_point text max_chars start)) as [bs'|] eqn:E;
    [|discriminate].
  intros H. injection H as <-. constructor; [simpl; split; [lia|reflexivity]|].
  apply (IH (split_point text max_chars start)); [|exact E].
  pose proof (split_point_window start). lia.
Qed.

End ChunkerMore.

Section ChunkerExtras.

(** The whole run, step by step. *)
Lemma simple_chunk_steps (text : str) (max_chars : Z) :
  0 < max_chars ->
  exists bs,
    simple_chunk_bounds text max_chars = Some bs /\
    simple_chunk_text text max_chars
    = Some (map (chunk_of (strip text)) bs) /\
    chain 0 bs (len (strip text)) /\
    Forall (fun b => 0 <= fst b < len (strip text) /\
                     snd b = split_point (strip text) max_chars (fst b)) bs.
Proof.
  intros Hm.
  destruct (simple_chunk_run text max_chars Hm _ (le_n _))
    as (bs & E1 & E2 & C).
  exists bs. split; [exact E1|]. split; [exact E2|]. split; [exact C|].
  unfold simple_chunk_bounds_fuel in E1.
  destruct (strip text) as [|c t] eqn:Et.
  - injection E1 as <-. constructor.
  - rewrite <- Et in *.
    exact (chunk_bounds_steps _ _ Hm _ 0 bs (Z.le_refl 0) E1).
Qed.

Lemma chain_count (lo hi : Z) (bs : list (Z * Z)) (m : Z) :
  chain lo bs hi ->
  Forall (fun b => snd b <= fst b + m) bs ->
  Z.of_nat (length bs) <= hi - lo /\ hi - lo <= m * Z.of_nat (length bs).
Proof.
  induction 1 as [lo | lo mid hi bs Hlt Hc IH]; intros Hf.
  - simpl. lia.
  - inversion Hf as [|x l Hx Hl]; subst. simpl in Hx.
    destruct (IH Hl) as [I1 I2]. cbn [length]. split; nia.
Qed.

Lemma chunk_lengths (text : str) (max_chars : Z) :
  0 < max_chars ->
  exists chunks,
    simple_chunk_text text max_chars = Some chunks /\
    Forall (fun chunk => len chunk <= max_chars) chunks.
Proof.
  intros Hm. destruct (simple_chunk_steps text max_chars Hm)
    as (bs & _ & E & _ & Hsteps).
  eexists. split; [exact E|].
  apply Forall_map. eapply Forall_impl; [|exact Hsteps].
  intros [a b] [Ha Hb]. simpl in *. unfold chunk_of. simpl.
  pose proof (split_point_window (strip text) max_chars Hm a Ha) as Hw.
  rewrite <- Hb in Hw.
  pose proof (strip_by_length isspace (slice (strip text) a b)) as Hl.
  fold (strip (slice (strip text) a b)) in Hl.
  assert (Hs := slice_length (strip text) a b ltac:(lia) ltac:(lia) ltac:(lia)).
  unfold len in *. lia.
Qed.

(** No chunk is longer than the window: for a positive [max_chars] the
    chunker returns, and every chunk has at most [max_chars] characters. *)
Theorem chunk_length_bound (text : str) (max_chars : Z) :
  0 < max_chars ->
  exists chunks,
    simple_chunk_text text max_chars = Some chunks /\
    Forall (fun chunk => len chunk <= max_chars) chunks.
Proof. exact (chunk_lengths text max_chars). Qed.

Lemma chunk_length_bound_witness :
  0 < 10 /\
  exists chunks,
    simple_chunk_text (lit "  Hello world. This is a test.  ") 10
    = Some chunks /\
    Forall (fun chunk => len chunk <= 10) chunks.
Proof.
  split; [lia|].
  apply (chunk_length_bound (lit "  Hello world. This is a test.  ") 10). lia.
Defined.

(** Whenever the chunker returns, no chunk begins or ends with
    whitespace. *)
Theorem chunks_are_trimmed (text : str) (max_chars : Z) (chunks : list str) :
  simple_chunk_text text max_chars = Some chunks ->
  Forall (trimmed isspace) chunks.
Proof.
  unfold simple_chunk_text, simple_chunk_text_fuel.
  destruct (strip text) as [|c t] eqn:Et.
  - intros E. injection E as <-. constructor.
  - rewrite <- Et. rewrite chunk_loop_bounds.
    destruct (chunk_bounds _ _ _ _) as [bs|]; [|discriminate].
    simpl. intros E. injection E as <-.
    apply Forall_map, Forall_forall. intros b _.
    apply strip_by_trimmed.
Qed.

Lemma chunks_are_trimmed_witness :
  simple_chunk_text (lit " one. two ") 5
  = Some [lit "one"; lit ". two"] /\
  Forall (trimmed isspace) [lit "one"; lit ". two"].
Proof.
  split; [reflexivity|].
  apply (chunks_are_trimmed (lit " one. two ") 5). reflexivity.
Defined.

(** The chunker returns no chunk exactly for a blank text: a text of
    whitespace only gives the empty list whatever the window, and with a
    positive window every other text gives at least one chunk. *)
Theorem no_chunk_iff_blank (text : str) (max_chars : Z) :
  (forallb isspace text = true -> simple_chunk_text text max_chars = Some []) /\
  (0 < max_chars -> simple_chunk_text text max_chars = Some [] ->
   forallb isspace text = true).
Proof.
  split.
  - intros Hb. apply strip_by_nil_iff in Hb. fold (strip text) in Hb.
    unfold simple_chunk_text, simple_chunk_text_fuel. now rewrite Hb.
  - intros Hm E. apply strip_by_nil_iff. fold (strip text).
    destruct (simple_chunk_steps text max_chars Hm) as (bs & _ & E' & C & _).
    rewrite E in E'. injection E' as E'.
    destruct bs; [|discriminate].
    inversion C as [lo Hlo|]; subst.
    destruct (strip text); [reflexivity | discriminate].
Qed.

Lemma no_chunk_iff_blank_witness :
  (forallb isspace [32; 10; 9]%N = true ->
   simple_chunk_text [32; 10; 9]%N 3200 = Some []) /\
  (0 < 3200 -> simple_chunk_text [32; 10; 9]%N 3200 = Some [] ->
   forallb isspace [32; 10; 9]%N = true).
Proof. exact (no_chunk_iff_blank [32; 10; 9]%N 3200). Defined.

(** Where the chunker cuts: every interval ends at the last line break
    after its cursor inside the window, else at the last full stop after its
    cursor inside the window, else at the end of the window. *)
Theorem chunks_cut_at_separators (text : str) (max_chars : Z) :
  0 < max_chars ->
  exists bs,
    simple_chunk_bounds text max_chars = Some bs /\
    simple_chunk_text text max_chars
    = Some (map (chunk_of (strip text)) bs) /\
    Forall (cut_rule (strip text) max_chars) bs.
Proof.
  intros Hm. destruct (simple_chunk_steps text max_chars Hm)
    as (bs & E1 & E2 & _ & Hsteps).
  exists bs. split; [exact E1|]. split; [exact E2|].
  eapply Forall_impl; [|exact Hsteps].
  intros [a b] [Ha Hb]. simpl in Ha, Hb. subst b.
  exact (split_point_choice (strip text) max_chars Hm a Ha).
Qed.

Lemma chunks_cut_at_separators_witness :
  0 < 10 /\
  exists bs,
    simple_chunk_bounds (lit "  Hello world. This is a test.  ") 10
    = Some bs /\
    simple_chunk_text (lit "  Hello world. This is a test.  ") 10
    = Some (map (chunk_of (strip (lit "  Hello world. This is a test.  ")))
              bs) /\
    Forall (cut_rule (strip (lit "  Hello world. This is a test.  ")) 10) bs.
Proof.
  split; [lia|].
  apply (chunks_cut_at_separators (lit "  Hello world. This is a test.  ")
           10). lia.
Defined.

(** How many chunks: at most one per character of the trimmed text, and
    enough of them to cover it with windows of [max_chars]. *)
Theorem chunk_count_bounds (text : str) (max_chars : Z) :
  0 < max_chars ->
  exists chunks,
    simple_chunk_text text max_chars = Some chunks /\
    Z.of_nat (length chunks) <= len (strip text) /\
    len (strip text) <= max_chars * Z.of_nat (length chunks).
Proof.
  intros Hm. destruct (simple_chunk_steps text max_chars Hm)
    as (bs & _ & E & C & Hsteps).
  eexists. split; [exact E|]. rewrite length_map.
  destruct (chain_count 0 (len (strip text)) bs max_chars C) as [I1 I2].
  - eapply Forall_impl; [|exact Hsteps].
    intros [a b] [Ha Hb]. simpl in *.
    pose proof (split_point_window (strip text) max_chars Hm a Ha). lia.
  - lia.
Qed.

Lemma chunk_count_bounds_witness :
  0 < 3 /\
  exists chunks,
    simple_chunk_text (lit "aaaaaaaaaa") 3 = Some chunks /\
    Z.of_nat (length chunks) <= len (strip (lit "aaaaaaaaaa")) /\
    len (strip (lit "aaaaaaaaaa")) <= 3 * Z.of_nat (length chunks).
Proof.
  split; [lia|]. apply (chunk_count_bounds (lit "aaaaaaaaaa") 3). lia.
Defined.

End ChunkerExtras.

(** ** Output of the wrapper *)

Section ParseOutputFacts.
Import Llama.

Lemma first_blank_rest_none (lines : list str) :
  Forall (fun line => strip line <> []) lines ->
  first_blank_rest lines = None.
Proof.
  induction 1 as [|line rest Hl _ IH]; simpl; [reflexivity|].
  destruct (strip line); [congruence | exact IH].
Qed.

Lemma first_blank_rest_some (header rest : list str) (blank : str) :
  Forall (fun line => strip line <> []) header ->
  strip blank = [] ->
  first_blank_rest (header ++ blank :: rest) = Some rest.
Proof.
  intros Hh Hb. induction Hh as [|line more Hl _ IH]; simpl.
  - now rewrite Hb.
  - destruct (strip line); [congruence | exact IH].
Qed.

(** [_parse_output] drops everything up to and including the first blank
    line and joins the lines after it with line feeds; without a blank line
    it keeps the whole output.  Either way the result is trimmed. *)
Theorem parse_output_drops_header (stdout : str) :
  (Forall (fun line => strip line <> []) (splitlines stdout) ->
   _parse_output stdout = strip stdout) /\
  (forall (header rest : list str) (blank : str),
     splitlines stdout = header ++ blank :: rest ->
     Forall (fun line => strip line <> []) header ->
     strip blank = [] ->
     _parse_output stdout = strip (join [10%N] rest)) /\
  trimmed isspace (_parse_output stdout).
Proof.
  unfold _parse_output. split; [|split].
  - intros H. now rewrite (first_blank_rest_none _ H).
  - intros header rest blank E Hh Hb.
    now rewrite E, (first_blank_rest_some header rest blank Hh Hb).
  - destruct (first_blank_rest _); apply strip_by_trimmed.
Qed.

Lemma parse_output_drops_header_witness :
  let stdout :=
    lit "load model" ++ [10%N] ++ lit "sampling" ++ [10; 10]%N
    ++ lit " Hello" ++ [10%N] ++ lit "World " ++ [10%N] in
  splitlines stdout
  = [lit "load model"; lit "sampling"] ++ [] :: [lit " Hello"; lit "World "]
  /\ Forall (fun line => strip line <> []) [lit "load model"; lit "sampling"]
  /\ strip [] = []
  /\ _parse_output stdout = strip (join [10%N] [lit " Hello"; lit "World "]).
Proof.
  split; [reflexivity|].
  split; [repeat constructor; discriminate|].
  split; [reflexivity|].
  apply (proj1 (proj2 (parse_output_drops_header _))
           [lit "load model"; lit "sampling"] [lit " Hello"; lit "World "] []);
    [reflexivity | repeat constructor; discriminate | reflexivity].
Defined.

End ParseOutputFacts.

(** ** Set-up of the wrapper, [/generate] *)

Section ServiceFacts.
Import Llama Service Samples.

Variable http_str : Z -> str -> str.
Variable cfg : Config.

(** A wrapper is constructed only over two paths that exist. *)
Lemma LlamaWrapper_init_exists (fs : FileSystem) (model : str)
  (binary : option str) (w : LlamaWrapper) :
  LlamaWrapper_init fs model binary = Ok w ->
  path_exists fs (model_path w) = true /\
  path_exists fs (binary_path w) = true /\
  model_path w = resolve fs (expanduser fs model).
Proof.
  unfold LlamaWrapper_init.
  destruct (path_exists fs (resolve fs (expanduser fs model))) eqn:E1;
    cbn [negb]; [|discriminate].
  match goal with
  | |- (if negb (path_exists fs ?b) then _ else _) = _ -> _ =>
      destruct (path_exists fs b) eqn:E2; cbn [negb]; [|discriminate]
  end.
  intros H. injection H as <-. cbn [model_path binary_path]. auto.
Qed.

(** [get_llama] keeps what it built: once a call has succeeded, the global
    holds the wrapper, and every later call returns this same wrapper
    without asking the file system again. *)
Theorem get_llama_memoises (fs : FileSystem) (st st' : option LlamaWrapper)
  (w : LlamaWrapper) :
  get_llama http_str cfg fs st = (Ok w, st') ->
  st' = Some w /\
  forall fs', get_llama http_str cfg fs' st' = (Ok w, st').
Proof.
  unfold get_llama. destruct st as [w0|].
  - intros H. injection H as <- <-. auto.
  - destruct (negb (wrapper_imported cfg)); [discriminate|].
    destruct (negb (isfile fs (DEFAULT_MODEL cfg))); [discriminate|].
    destruct (negb (isfile fs (DEFAULT_BIN cfg))); [discriminate|].
    destruct (LlamaWrapper_init _ _ _); [|discriminate].
    intros H. injection H as <- <-. auto.
Qed.

(** A failure of [get_llama] is always an HTTP error 500, happens only
    while no wrapper is held, and leaves the global empty, so the next call
    tries again. *)
Theorem get_llama_failure (fs : FileSystem) (st st' : option LlamaWrapper)
  (e : exn) :
  get_llama http_str cfg fs st = (Raise e, st') ->
  st = None /\ st' = None /\ exists detail, e = HTTPException 500 detail.
Proof.
  unfold get_llama. destruct st as [w0|]; [discriminate|].
  destruct (negb (wrapper_imported cfg));
    [intros H; injection H as <- <-; eauto|].
  destruct (negb (isfile fs (DEFAULT_MODEL cfg)));
    [intros H; injection H as <- <-; eauto|].
  destruct (negb (isfile fs (DEFAULT_BIN cfg)));
    [intros H; injection H as <- <-; eauto|].
  destruct (LlamaWrapper_init _ _ _); [discriminate|].
  intros H; injection H as <- <-; eauto.
Qed.

(** A first call of [get_llama] succeeds only when the wrapper module was
    imported, both default paths are files, and both resolved paths of the
    wrapper exist. *)
Theorem get_llama_checks (fs : FileSystem) (st' : option LlamaWrapper)
  (w : LlamaWrapper) :
  get_llama http_str cfg fs None = (Ok w, st') ->
  wrapper_imported cfg = true /\
  isfile fs (DEFAULT_MODEL cfg) = true /\
  isfile fs (DEFAULT_BIN cfg) = true /\
  path_exists fs (model_path w) = true /\
  path_exists fs (binary_path w) = true.
Proof.
  unfold get_llama.
  destruct (wrapper_imported cfg); cbn [negb]; [|discriminate].
  destruct (isfile fs (DEFAULT_MODEL cfg)); cbn [negb]; [|discriminate].
  destruct (isfile fs (DEFAULT_BIN cfg)); cbn [negb]; [|discriminate].
  destruct (LlamaWrapper_init _ _ _) as [w'|] eqn:E; [|discriminate].
  intros H. injection H as <- _.
  apply LlamaWrapper_init_exists in E. tauto.
Qed.

(** [/generate] with a wrapper at hand: when the process ends with a
    nonzero status the handler raises HTTP 500 whose detail is the
    wrapper's message, ending with the standard error text; when it ends
    with status zero the response echoes the prompt and carries the parsed
    output. *)
Theorem generate_text_outcome (run : subprocess_run) (w : LlamaWrapper)
  (request : PromptRequest) (proc : CompletedProcess) :
  run (generate_cmd w (prompt request) (max_tokens request)
         default_temperature 40 default_top_p) = Ok proc ->
  (returncode proc <> 0 ->
   generate_text http_str (Ok (bound_generate run w)) request
   = Raise (HTTPException 500
              (lit "llama-cli failed (rc=" ++ str_of_Z (returncode proc)
               ++ lit "):" ++ [10%N] ++ stderr proc))) /\
  (returncode proc = 0 ->
   generate_text http_str (Ok (bound_generate run w)) request
   = Ok {| response_prompt := prompt request;
           response := _parse_output (stdout proc) |}).
Proof.
  intros Hrun. unfold generate_text, bound_generate, generate. cbn [bind].
  rewrite Hrun. cbn [bind]. split; intros Hrc.
  - destruct (Z.eqb_spec (returncode proc) 0); [contradiction|]. reflexivity.
  - rewrite Hrc. reflexivity.
Qed.

(** The only errors of [/generate] are the one of [get_llama], passed on
    as it is, and HTTP 500 with the text of whatever the generation
    raised. *)
Theorem generate_text_errors (get_llama : result App.generator)
  (request : PromptRequest) (e : exn) :
  generate_text http_str get_llama request = Raise e ->
  get_llama = Raise e \/
  exists llama e',
    get_llama = Ok llama /\
    llama (prompt request) (max_tokens request) = Raise e' /\
    e = HTTPException 500 (exn_str http_str e').
Proof.
  unfold generate_text. destruct get_llama as [llama|e0]; cbn [bind].
  - destruct (llama (prompt request) (max_tokens request)) as [r|e'] eqn:E;
      [discriminate|].
    intros H. injection H as <-. right. eauto.
  - intros H. injection H as <-. left. reflexivity.
Qed.

End ServiceFacts.

Section ServiceWitnesses.
Import Llama Service Samples.

Lemma get_llama_memoises_witness :
  let w := {| model_path := DEFAULT_MODEL some_config;
              binary_path := DEFAULT_BIN some_config |} in
  get_llama some_http_str some_config fs_present None = (Ok w, Some w) /\
  (Some w = Some w /\
   forall fs', get_llama some_http_str some_config fs' (Some w)
               = (Ok w, Some w)).
Proof.
  split; [reflexivity|].
  apply (get_llama_memoises some_http_str some_config fs_present None).
  reflexivity.
Defined.

Lemma get_llama_failure_witness :
  let e := HTTPException 500
             (lit "Model file not found at " ++ DEFAULT_MODEL some_config) in
  get_llama some_http_str some_config fs_absent None = (Raise e, None) /\
  (@None LlamaWrapper = None /\ @None LlamaWrapper = None /\
   exists detail, e = HTTPException 500 detail).
Proof.
  split; [reflexivity|].
  apply (get_llama_failure some_http_str some_config fs_absent None None).
  reflexivity.
Defined.

Lemma get_llama_checks_witness :
  let w := {| model_path := DEFAULT_MODEL some_config;
              binary_path := DEFAULT_BIN some_config |} in
  get_llama some_http_str some_config fs_present None = (Ok w, Some w) /\
  (wrapper_imported some_config = true /\
   isfile fs_present (DEFAULT_MODEL some_config) = true /\
   isfile fs_present (DEFAULT_BIN some_config) = true /\
   path_exists fs_present (model_path w) = true /\
   path_exists fs_present (binary_path w) = true).
Proof.
  intros w. split; [reflexivity|].
  apply (get_llama_checks some_http_str some_config fs_present (Some w) w).
  reflexivity.
Defined.

Lemma generate_text_outcome_witness :
  let request := {| prompt := lit "hi"; max_tokens := 64 |} in
  let proc := {| returncode := 1; stdout := lit "partial";
                 stderr := lit "boom" |} in
  failing_run
    (generate_cmd some_wrapper (prompt request) (max_tokens request)
       default_temperature 40 default_top_p) = Ok proc /\
  ((returncode proc <> 0 ->
    generate_text some_http_str (Ok (bound_generate failing_run some_wrapper))
      request
    = Raise (HTTPException 500
               (lit "llama-cli failed (rc=" ++ str_of_Z (returncode proc)
                ++ lit "):" ++ [10%N] ++ stderr proc))) /\
   (returncode proc = 0 ->
    generate_text some_http_str (Ok (bound_generate failing_run some_wrapper))
      request
    = Ok {| response_prompt := prompt request;
            response := _parse_output (stdout proc) |})).
Proof.
  split; [reflexivity|].
  apply (generate_text_outcome some_http_str failing_run some_wrapper
           {| prompt := lit "hi"; max_tokens := 64 |}).
  reflexivity.
Defined.

Lemma generate_text_errors_witness :
  let request := {| prompt := lit "hi"; max_tokens := 64 |} in
  let e := HTTPException 500
             (lit "llama-cli failed (rc=1):" ++ [10%N] ++ lit "boom") in
  generate_text some_http_str (Ok (bound_generate failing_run some_wrapper))
    request = Raise e /\
  (Ok (bound_generate failing_run some_wrapper) = Raise e \/
   exists llama e',
     Ok (bound_generate failing_run some_wrapper) = Ok llama /\
     llama (prompt request) (max_tokens request) = Raise e' /\
     e = HTTPException 500 (exn_str some_http_str e')).
Proof.
  split; [reflexivity|].
  apply (generate_text_errors some_http_str
           (Ok (bound_generate failing_run some_wrapper))
           {| prompt := lit "hi"; max_tokens := 64 |}).
  reflexivity.
Defined.

End ServiceWitnesses.

(** ** More on the summary pipeline *)

Section SummaryMore.
Import App.
Context {CT : CaseTables}.

Lemma add_new_Forall (P : str -> Prop) (bs acc : list str) :
  Forall P acc -> Forall P bs -> Forall P (add_new acc bs).
Proof.
  revert acc; induction bs as [|b bs IH]; intros acc Hacc Hbs; simpl;
    [exact Hacc|].
  inversion Hbs as [|x l Hb Hl]; subst. apply IH; [|exact Hl].
  destruct (str_in b acc); [exact Hacc|].
  apply Forall_app. split; [exact Hacc | constructor; [exact Hb|constructor]].
Qed.

Lemma Forall_firstn_of (A : Type) (P : A -> Prop) (n : nat) (l : list A) :
  Forall P l -> Forall P (firstn n l).
Proof.
  intros H. rewrite <- (firstn_skipn n l) in H.
  apply Forall_app in H. tauto.
Qed.

Lemma line_candidates_good (line : str) :
  Forall (fun b => b <> [] /\ trimmed isspace b) (line_candidates line).
Proof.
  unfold line_candidates.
  destruct (startswith (strip line) (lit "-")); [|constructor].
  destruct (strip (lstrip_chars (lit "- ") (strip line))) as [|c r] eqn:E;
    cbn [is_empty]; constructor; [|constructor].
  split; [discriminate|]. rewrite <- E. apply strip_by_trimmed.
Qed.

(** The chunk loop, both parts of its state. *)
Lemma summarize_chunks_state (generate : generator) (chunks : list str) :
  forall bs sp bs' sp',
    summarize_chunks generate (bs, sp) chunks = Ok (bs', sp') ->
    exists outs,
      Forall2 (fun c out => generate (SUMMARY_PROMPT c) 256 = Ok out)
        (firstn (length outs) chunks) outs /\
      bs' = add_new bs (flat_map bullet_candidates outs) /\
      sp' = sp ++ flat_map summary_fragments outs.
Proof.
  induction chunks as [|c rest IH]; intros bs sp bs' sp';
    cbn [summarize_chunks].
  - intros E. injection E as <- <-. exists [].
    split; [constructor|]. now rewrite app_nil_r.
  - destruct (generate (SUMMARY_PROMPT c) 256) as [out|e] eqn:Eg;
      cbn [bind]; [|discriminate].
    destruct (summarize_lines (bs, sp) (splitlines out))
      as [[bs1 sp1]|e] eqn:El; cbn [bind]; [|discriminate].
    apply summarize_lines_state in El. destruct El as [E1 E2].
    destruct (5 <=? length (fst (bs1, sp1)))%nat.
    + intros E. injection E as <- <-. exists [out]. split.
      * simpl. constructor; [exact Eg | constructor].
      * cbn [flat_map]. rewrite !app_nil_r. split; assumption.
    + intros E. apply IH in E. destruct E as (outs & Houts & -> & ->).
      exists (out :: outs). split.
      * simpl. constructor; [exact Eg | exact Houts].
      * cbn [flat_map]. rewrite add_new_app, app_assoc, E1, E2.
        split; reflexivity.
Qed.

(** The chunk loop raises only what the generator raised on the prompt of
    one of the chunks. *)
Lemma summarize_chunks_errors (generate : generator) (chunks : list str) :
  forall st e,
    summarize_chunks generate st chunks = Raise e ->
    exists c, In c chunks /\ generate (SUMMARY_PROMPT c) 256 = Raise e.
Proof.
  induction chunks as [|c rest IH]; intros st e; cbn [summarize_chunks];
    [discriminate|].
  destruct (generate (SUMMARY_PROMPT c) 256) as [out|e0] eqn:Eg; cbn [bind].
  - destruct (summarize_lines_total (splitlines out) st) as (st1 & ->).
    cbn [bind]. destruct (5 <=? length (fst st1))%nat; [discriminate|].
    intros H. destruct (IH _ _ H) as (c' & Hin & Hc').
    exists c'. split; [right; exact Hin | exact Hc'].
  - intros H. injection H as <-. exists c. split; [left; reflexivity|exact Eg].
Qed.

Lemma slice_prefix_length (s : str) (n : Z) :
  0 <= n -> len (slice s 0 n) <= n.
Proof.
  intros Hn. unfold slice.
  rewrite (adjust_slice_id (len s) 0) by (unfold len; lia).
  unfold len. rewrite length_firstn.
  assert (adjust_slice (Z.of_nat (length s)) n <= n).
  { unfold adjust_slice. rewrite adjust_low_id by lia. lia. }
  lia.
Qed.

End SummaryMore.

Section SummaryExtras.
Import App Samples.

(** Every bullet of a summary response is a non-empty text without
    whitespace at either end. *)
Theorem summary_bullets_nonempty_trimmed {CT : CaseTables}
  (get_llama : result generator) (payload : Dict) (resp : SummaryResponse) :
  summarize get_llama payload = Some (Ok resp) ->
  Forall (fun b => b <> [] /\ trimmed isspace b) (bullets resp).
Proof.
  unfold summarize.
  destruct (is_empty (str_or _ _)); [discriminate|].
  destruct get_llama as [llama|e]; [|discriminate].
  destruct (Chunker.simple_chunk_text _ 3200) as [chunks|]; [|discriminate].
  destruct (summarize_chunks llama ([], []) chunks) as [[bs sp]|e] eqn:E;
    cbn [bind]; [|discriminate].
  intros H.
  assert (Hr : resp = summarize_response (bs, sp)) by congruence.
  subst resp. clear H.
  apply summarize_chunks_state in E. destruct E as (outs & _ & -> & _).
  rewrite summarize_response_bullets. cbn [fst].
  apply Forall_firstn_of, add_new_Forall; [constructor|].
  apply Forall_flat_map, Forall_forall. intros out _.
  apply Forall_flat_map, Forall_forall. intros line _.
  apply line_candidates_good.
Qed.

Lemma summary_bullets_nonempty_trimmed_witness :
  let resp := {| bullets := [lit "first"; lit "second"];
                 summary := lit "one: two. Summary three" |} in
  @summarize ascii_case (Ok (fun _ _ => Ok bullets_and_summary))
    (text_payload (lit "notes")) = Some (Ok resp) /\
  Forall (fun b => b <> [] /\ trimmed isspace b) (bullets resp).
Proof.
  split; [reflexivity|].
  apply (@summary_bullets_nonempty_trimmed ascii_case
           (Ok (fun _ _ => Ok bullets_and_summary))
           (text_payload (lit "notes"))).
  reflexivity.
Defined.

(** The summary of a response is the first 800 characters of the summary
    fragments, joined by single blanks, of the generated texts the loop
    reads for the chunks the chunker makes of the request's text (the
    generator's answers, in chunk order, up to the first one that brings the
    bullets to five), taken in chunk order and line order; it is never
    longer than 800 characters. *)
Theorem summary_text_bounded {CT : CaseTables}
  (get_llama : result generator) (payload : Dict) (resp : SummaryResponse) :
  summarize get_llama payload = Some (Ok resp) ->
  len (summary resp) <= 800 /\
  exists (llama : generator) (chunks outs : list str),
    get_llama = Ok llama /\
    Chunker.simple_chunk_text
      (str_or (dict_get payload (lit "text") [])
         (dict_get payload (lit "url_text") [])) 3200 = Some chunks /\
    texts_read llama chunks outs /\
    summary resp
    = slice (join (lit " ") (flat_map summary_fragments outs)) 0 800.
Proof.
  intros H. apply summarize_run in H.
  destruct H as (llama & chunks & outs & Hg & Hc & Hr & ->).
  assert (Es : summary (summarize_response
                          (first_occurrences
                             (flat_map bullet_candidates outs),
                           flat_map summary_fragments outs))
               = slice (join (lit " ") (flat_map summary_fragments outs)) 0 800).
  { unfold summarize_response. cbn [summary].
    destruct (flat_map summary_fragments outs); reflexivity. }
  rewrite Es. split; [apply slice_prefix_length; lia|].
  exists llama, chunks, outs. auto.
Qed.

Lemma summary_text_bounded_witness :
  let resp := {| bullets := [lit "first"; lit "second"];
                 summary := lit "one: two. Summary three" |} in
  let payload := text_payload (lit "notes") in
  @summarize ascii_case (Ok (fun _ _ => Ok bullets_and_summary)) payload
  = Some (Ok resp) /\
  (len (summary resp) <= 800 /\
   exists (llama : generator) (chunks outs : list str),
     Ok (fun _ _ => Ok bullets_and_summary) = Ok llama /\
     Chunker.simple_chunk_text
       (str_or (dict_get payload (lit "text") [])
          (dict_get payload (lit "url_text") [])) 3200 = Some chunks /\
     texts_read llama chunks outs /\
     summary resp
     = slice (join (lit " ") (flat_map (@summary_fragments ascii_case) outs))
         0 800).
Proof.
  split; [reflexivity|].
  apply (@summary_text_bounded ascii_case
           (Ok (fun _ _ => Ok bullets_and_summary))
           (text_payload (lit "notes"))).
  reflexivity.
Defined.

(** Two chunks with different generated texts: the summary holds their
    fragments in chunk order. *)
Example summary_in_chunk_order :
  let llama : generator :=
    fun prompt _ =>
      if contains (lit "first part") prompt
      then Ok (lit "Summary: one")
      else Ok (lit "Summary: two") in
  @summarize ascii_case (Ok llama)
    (text_payload (lit "first part" ++ nl ++ lit "second"))
  = Some (Ok {| bullets := []; summary := lit "one two" |}).
Proof. reflexivity. Qed.

End SummaryExtras.

(** ** [/summarize] on any JSON body *)

Section SummaryRequests.
Import App Requests Samples.

(** On a body whose values are strings, [summarize_json] is [summarize]. *)
Lemma summarize_json_of_dict {CT : CaseTables}
  (get_llama : result generator) (d : Dict) :
  summarize_json get_llama (of_dict d)
  = option_map reply_of (summarize get_llama d).
Proof.
  unfold summarize_json, summarize, body_get, of_dict, dict_get, json_or,
    str_or.
  destruct (d (lit "text")) as [a|]; destruct (d (lit "url_text")) as [b|];
    cbn [truthy is_empty negb];
    repeat match goal with
    | |- context [is_empty ?x] => destruct x; cbn [truthy is_empty negb]
    end;
    try reflexivity;
    destruct get_llama; try reflexivity;
    destruct (Chunker.simple_chunk_text _ 3200); reflexivity.
Qed.

(** [/summarize] raises in four cases only: HTTP 400 when neither [text]
    nor [url_text] holds a true value; the error of [get_llama]; the
    [AttributeError] of [text.strip()] when the value taken is not a string
    (a number, a list, ...), the generator being there; and the error the
    generator raised on the summary prompt of one of the chunks, passed on
    as it is.  Parsing the generated text never raises. *)
Theorem summarize_json_errors {CT : CaseTables}
  (get_llama : result generator) (payload : Body) (r : raised) :
  summarize_json get_llama payload = Some (Raises r) ->
  let full_text :=
    json_or (body_get payload (lit "text"))
      (body_get payload (lit "url_text")) in
  (truthy full_text = false /\
   r = Exn (HTTPException 400 (lit "No text provided."))) \/
  (truthy full_text = true /\
   exists e, get_llama = Raise e /\ r = Exn e) \/
  (exists (llama : generator) (type_name : str),
     get_llama = Ok llama /\
     full_text = JOther true type_name /\
     r = AttributeError (no_strip type_name)) \/
  (exists (llama : generator) (text : str) (chunks : list str) (c : str)
          (e : exn),
     get_llama = Ok llama /\
     full_text = JString text /\ text <> [] /\
     Chunker.simple_chunk_text text 3200 = Some chunks /\
     In c chunks /\ llama (SUMMARY_PROMPT c) 256 = Raise e /\
     r = Exn e).
Proof.
  unfold summarize_json.
  destruct (truthy (json_or _ _)) eqn:Et; cbn [negb].
  - destruct get_llama as [llama|e0].
    + destruct (json_or _ _) as [text|truth type_name] eqn:Ef.
      * destruct (Chunker.simple_chunk_text text 3200) as [chunks|] eqn:Ec;
          [|discriminate].
        destruct (summarize_chunks llama ([], []) chunks) as [st|e1] eqn:E;
          cbn [bind reply_of]; [discriminate|].
        intros H. injection H as <-.
        destruct (summarize_chunks_errors _ _ _ _ E) as (c & Hin & Hc).
        right. right. right. exists llama, text, chunks, c, e1.
        repeat (split; [first [reflexivity | assumption
                              | intros ->; discriminate]|]).
        reflexivity.
      * intros H. injection H as <-. cbn [truthy] in Et. subst truth.
        right. right. left. exists llama, type_name. auto.
    + intros H. injection H as <-. right. left. split; [reflexivity|eauto].
  - intros H. injection H as <-. left. auto.
Qed.

Lemma summarize_json_errors_witness :
  let r := AttributeError (lit "'int' object has no attribute 'strip'") in
  let get_llama : result generator := Ok (fun _ _ => Ok eight_bullets) in
  @summarize_json ascii_case get_llama number_body = Some (Raises r) /\
  let full_text :=
    json_or (body_get number_body (lit "text"))
      (body_get number_body (lit "url_text")) in
  ((truthy full_text = false /\
    r = Exn (HTTPException 400 (lit "No text provided."))) \/
   (truthy full_text = true /\
    exists e, get_llama = Raise e /\ r = Exn e) \/
   (exists (llama : generator) (type_name : str),
      get_llama = Ok llama /\
      full_text = JOther true type_name /\
      r = AttributeError (no_strip type_name)) \/
   (exists (llama : generator) (text : str) (chunks : list str) (c : str)
           (e : exn),
      get_llama = Ok llama /\
      full_text = JString text /\ text <> [] /\
      Chunker.simple_chunk_text text 3200 = Some chunks /\
      In c chunks /\ llama (SUMMARY_PROMPT c) 256 = Raise e /\
      r = Exn e)).
Proof.
  split; [reflexivity|].
  apply (@summarize_json_errors ascii_case
           (Ok (fun _ _ => Ok eight_bullets)) number_body).
  reflexivity.
Defined.

(** Each of the four cases occurs. *)
Example summarize_json_cases :
  @summarize_json ascii_case (Ok failing_generator)
    (value_payload (JOther false (lit "int")))
  = Some (Raises (Exn (HTTPException 400 (lit "No text provided.")))) /\
  @summarize_json ascii_case (Raise (RuntimeError (lit "no model")))
    number_body
  = Some (Raises (Exn (RuntimeError (lit "no model")))) /\
  @summarize_json ascii_case (Ok failing_generator) number_body
  = Some (Raises
            (AttributeError (lit "'int' object has no attribute 'strip'"))) /\
  @summarize_json ascii_case (Ok failing_generator)
    (of_dict (text_payload (lit "notes")))
  = Some (Raises (Exn (RuntimeError (lit "llama-cli failed")))).
Proof. repeat split. Qed.

End SummaryRequests.

(** ** More on the quiz parser *)

Section QuizMore.
Import App.
Context {CT : CaseTables}.

(** [quiz_line] never raises: it returns [quiz_step]. *)
Lemma quiz_line_step (st : list QuizQuestion * option QuizQuestion) (l : str) :
  quiz_line st l = Ok (quiz_step st l).
Proof.
  destruct st as [qs cur]. unfold quiz_line, quiz_step.
  destruct (starts_question l).
  - destruct cur; reflexivity.
  - destruct (is_option l).
    + destruct (contains (lit "(Answer:") l || contains (lit "Answer:") l);
        [|reflexivity].
      unfold last_item, split.
      destruct (split_from_cons (lit "Answer:") l None O []) as (x & xs & ->).
      reflexivity.
    + destruct (contains (lit "(Answer:") l) eqn:Hc;
        [|destruct cur; reflexivity].
      destruct cur as [q|]; [|reflexivity].
      unfold item.
      destruct (nth_error (split l (lit "(Answer:") (Some 1%nat)) 1)
        as [a|] eqn:En.
      * erewrite nth_error_nth by exact En. reflexivity.
      * destruct (item_split_once l (lit "(Answer:")) as (pre & post & E & _);
          [discriminate | exact Hc |].
        unfold item in E. rewrite En in E. discriminate.
Qed.

Lemma quiz_lines_fold (lines : list str) :
  forall st, quiz_lines st lines = Ok (fold_left quiz_step lines st).
Proof.
  induction lines as [|l rest IH]; intros st; cbn [quiz_lines fold_left];
    [reflexivity|].
  rewrite quiz_line_step. cbn [bind]. apply IH.
Qed.

Lemma parse_quiz_fold (out : str) :
  parse_quiz out
  = Ok (all_questions (fold_left quiz_step (nonempty_lines out) ([], None))).
Proof.
  unfold parse_quiz. rewrite quiz_lines_fold. cbn [bind].
  destruct (fold_left quiz_step (nonempty_lines out) ([], None)) as [qs cur].
  unfold all_questions. destruct cur; simpl; [reflexivity|].
  now rewrite app_nil_r.
Qed.

(** A property of the whole list that every step keeps, and the initial
    state has, holds of the result. *)
Lemma fold_quiz_invariant (I : list QuizQuestion -> Prop) (lines : list str)
  (good : str -> Prop) :
  (forall st l, good l -> I (all_questions st) ->
                I (all_questions (quiz_step st l))) ->
  Forall good lines ->
  forall st, I (all_questions st) ->
             I (all_questions (fold_left quiz_step lines st)).
Proof.
  intros Hstep Hl. induction Hl as [|l rest Hg _ IH]; intros st Hst;
    cbn [fold_left]; [exact Hst|].
  apply IH, Hstep; assumption.
Qed.

Lemma all_questions_step_cases (qs : list QuizQuestion)
  (cur : option QuizQuestion) (l : str) :
  let q0 :=
    match cur with
    | None => {| question := []; options := []; answer := None |}
    | Some q => q
    end in
  (starts_question l = true /\
   all_questions (quiz_step (qs, cur) l)
   = all_questions (qs, cur)
     ++ [ {| question := l; options := []; answer := None |} ]) \/
  (starts_question l = false /\ is_option l = true /\
   exists a,
     all_questions (quiz_step (qs, cur) l)
     = qs ++ [ {| question := question q0; options := options q0 ++ [l];
                  answer := a |} ] /\
     (a = answer q0 \/
      contains (lit "Answer:") l = true /\
      exists tail, a = Some (strip_chars (lit " )") tail))) \/
  (starts_question l = false /\ is_option l = false /\
   contains (lit "(Answer:") l = true /\
   match cur with
   | None => quiz_step (qs, cur) l = (qs, cur)
   | Some q =>
       exists tail,
         all_questions (quiz_step (qs, cur) l)
         = qs ++ [ {| question := question q; options := options q;
                      answer := Some (strip_chars (lit " )") tail) |} ]
   end) \/
  (starts_question l = false /\ is_option l = false /\
   contains (lit "(Answer:") l = false /\
   match cur with
   | None =>
       all_questions (quiz_step (qs, cur) l)
       = qs ++ [ {| question := l; options := []; answer := None |} ]
   | Some _ => quiz_step (qs, cur) l = (qs, cur)
   end).
Proof.
  intros q0. unfold quiz_step, all_questions. cbn [fst snd].
  destruct (starts_question l).
  { left. split; [reflexivity|]. destruct cur; cbn [fst snd pending];
      [reflexivity | now rewrite app_nil_r]. }
  right. destruct (is_option l).
  - left. split; [reflexivity|]. split; [reflexivity|].
    eexists. split; [reflexivity|].
    destruct (contains (lit "(Answer:") l || contains (lit "Answer:") l)
      eqn:Hm; [|left; reflexivity].
    right. split; [|eauto].
    apply orb_true_iff in Hm. destruct Hm as [Hm | Hm]; [|exact Hm].
    revert Hm. generalize l. clear.
    intros s. induction s as [|x r IH].
    + discriminate.
    + cbn [contains]. intros H. apply orb_true_iff in H.
      destruct H as [H | H].
      * cbn [startswith lit map list_ascii_of_string] in H.
        apply andb_true_iff in H. destruct H as [_ H].
        apply orb_true_iff. right. now apply contains_here.
      * apply orb_true_iff. right. exact (IH H).
  - right. destruct (contains (lit "(Answer:") l).
    + left. repeat split.
      destruct cur; [eexists; reflexivity | reflexivity].
    + right. repeat split. destruct cur; reflexivity.
Qed.

End QuizMore.

Section QuizInvariants.
Import App.
Context {CT : CaseTables}.

Lemma nonempty_lines_good (out : str) :
  Forall (fun l => l <> [] /\ trimmed isspace l) (nonempty_lines out).
Proof.
  unfold nonempty_lines. apply Forall_map, Forall_forall.
  intros l Hl. apply filter_In in Hl. destruct Hl as [_ Hl].
  split; [|apply strip_by_trimmed].
  destruct (strip l); [discriminate | discriminate].
Qed.

Lemma all_questions_split (P : QuizQuestion -> Prop)
  (qs : list QuizQuestion) (cur : option QuizQuestion) :
  Forall P (all_questions (qs, cur)) <->
  Forall P qs /\ match cur with Some q => P q | None => True end.
Proof.
  unfold all_questions. cbn [fst snd]. rewrite Forall_app.
  destruct cur as [q|]; cbn [pending]; split; intros [H1 H2]; split; auto.
  - now inversion H2.
Qed.

(** A property of single records is kept by a step when it holds of a new
    question, of a record that received an option, and of a record that
    received an answer. *)
Lemma quiz_step_Forall (P : QuizQuestion -> Prop) (good : str -> Prop) :
  (forall l, good l ->
     P {| question := l; options := []; answer := None |}) ->
  (forall l q a, good l -> is_option l = true ->
     (q = {| question := []; options := []; answer := None |} \/ P q) ->
     (a = answer q \/
      contains (lit "Answer:") l = true /\
      exists tail, a = Some (strip_chars (lit " )") tail)) ->
     P {| question := question q; options := options q ++ [l];
          answer := a |}) ->
  (forall l q tail, good l -> contains (lit "Answer:") l = true -> P q ->
     P {| question := question q; options := options q;
          answer := Some (strip_chars (lit " )") tail) |}) ->
  forall st l, good l ->
    Forall P (all_questions st) -> Forall P (all_questions (quiz_step st l)).
Proof.
  intros Hnew Hopt Hans [qs cur] l Hg HI.
  apply all_questions_split in HI. destruct HI as [Hqs Hcur].
  destruct (all_questions_step_cases qs cur l)
    as [(_ & E) | [(_ & Ho & a & E & Ha) | [(_ & _ & Hc & E) | (_ & _ & _ & E)]]].
  - rewrite E. apply Forall_app. split.
    + apply all_questions_split. auto.
    + constructor; [apply Hnew; exact Hg | constructor].
  - rewrite E. apply Forall_app. split; [exact Hqs|].
    constructor; [|constructor].
    apply Hopt; try assumption. destruct cur; auto.
  - destruct cur as [q|].
    + destruct E as (tail & ->). apply Forall_app. split; [exact Hqs|].
      constructor; [|constructor].
      apply (Hans l);
        [exact Hg | now apply paren_marker_is_marker | exact Hcur].
    + rewrite E. apply all_questions_split. auto.
  - destruct cur as [q|].
    + rewrite E. apply all_questions_split. auto.
    + rewrite E. apply Forall_app. split; [exact Hqs|].
      constructor; [apply Hnew; exact Hg | constructor].
Qed.

Lemma parse_quiz_Forall (P : QuizQuestion -> Prop) (good : str -> Prop)
  (out : str) :
  (forall st l, good l ->
     Forall P (all_questions st) -> Forall P (all_questions (quiz_step st l))) ->
  Forall good (nonempty_lines out) ->
  exists qs, parse_quiz out = Ok qs /\ Forall P qs.
Proof.
  intros Hstep Hg. rewrite parse_quiz_fold. eexists. split; [reflexivity|].
  apply (fold_quiz_invariant (Forall P) _ good Hstep Hg). constructor.
Qed.

Lemma concat_options_split (qs : list QuizQuestion)
  (cur : option QuizQuestion) :
  concat (map options (all_questions (qs, cur)))
  = concat (map options qs)
    ++ match cur with Some q => options q | None => [] end.
Proof.
  unfold all_questions. cbn [fst snd]. rewrite map_app, concat_app.
  destruct cur; simpl; now rewrite ?app_nil_r.
Qed.

(** One step adds the line to the options exactly when the line takes the
    option branch. *)
Lemma quiz_step_options (st : list QuizQuestion * option QuizQuestion)
  (l : str) :
  concat (map options (all_questions (quiz_step st l)))
  = concat (map options (all_questions st))
    ++ (if negb (starts_question l) && is_option l then [l] else []).
Proof.
  destruct st as [qs cur].
  destruct (all_questions_step_cases qs cur l)
    as [(Hq & E) | [(Hq & Ho & a & E & _)
                   | [(Hq & Ho & _ & E) | (Hq & Ho & _ & E)]]];
    rewrite Hq, ?Ho; cbn [negb andb].
  - rewrite E, map_app, concat_app. reflexivity.
  - rewrite E, concat_options_split, map_app, concat_app. simpl.
    rewrite app_nil_r. destruct cur; simpl;
      now rewrite ?app_nil_r, ?app_assoc.
  - destruct cur as [q|].
    + destruct E as (tail & ->).
      rewrite concat_options_split, map_app, concat_app. simpl.
      now rewrite !app_nil_r.
    + rewrite E. now rewrite app_nil_r.
  - destruct cur as [q|].
    + rewrite E. now rewrite app_nil_r.
    + rewrite E, concat_options_split, map_app, concat_app. simpl.
      now rewrite !app_nil_r.
Qed.

Lemma fold_quiz_options (lines : list str) :
  forall st,
    concat (map options (all_questions (fold_left quiz_step lines st)))
    = concat (map options (all_questions st))
      ++ filter (fun l => negb (starts_question l) && is_option l) lines.
Proof.
  induction lines as [|l rest IH]; intros st; cbn [fold_left filter].
  - now rewrite app_nil_r.
  - rewrite IH, quiz_step_options, <- app_assoc.
    destruct (negb (starts_question l) && is_option l); reflexivity.
Qed.




End QuizInvariants.

Section QuizExtras.
Import App Samples.

(** No option line is lost or invented: the options of the returned
    questions, taken in order, are exactly the lines of the generated text
    that match the option pattern and not the question pattern. *)
Theorem quiz_keeps_every_option {CT : CaseTables} (out : str) :
  exists qs,
    parse_quiz out = Ok qs /\
    concat (map options qs)
    = filter (fun l => negb (starts_question l) && is_option l)
        (nonempty_lines out).
Proof.
  rewrite parse_quiz_fold. eexists. split; [reflexivity|].
  rewrite fold_quiz_options. reflexivity.
Qed.



(** Answers: an answer, when present, has no blank and no closing bracket
    at either end; and when no line of the generated text contains
    [Answer:], no question has an answer. *)
Theorem quiz_answers_normalised {CT : CaseTables} (out : str) :
  exists qs,
    parse_quiz out = Ok qs /\
    Forall (fun q => match answer q with
                     | None => True
                     | Some a => trimmed (char_in (lit " )")) a
                     end) qs /\
    ((forall l, In l (nonempty_lines out) ->
        contains (lit "Answer:") l = false) ->
     Forall (fun q => answer q = None) qs).
Proof.
  destruct (parse_quiz_Forall
              (fun q => match answer q with
                        | None => True
                        | Some a => trimmed (char_in (lit " )")) a
                        end)
              (fun _ => True) out) as (qs & E & H1).
  - apply quiz_step_Forall.
    + intros; exact I.
    + intros l q a _ _ Hq [-> | (_ & tail & ->)]; cbn [answer].
      * destruct Hq as [-> | Hq]; [exact I | exact Hq].
      * apply strip_by_trimmed.
    + intros l q tail _ _ _. cbn [answer]. apply strip_by_trimmed.
  - apply Forall_forall. intros; exact I.
  - exists qs. split; [exact E|]. split; [exact H1|].
    intros Hno.
    destruct (parse_quiz_Forall (fun q => answer q = None)
                (fun l => contains (lit "Answer:") l = false) out)
      as (qs' & E' & H2).
    + apply quiz_step_Forall.
      * intros; reflexivity.
      * intros l q a Hl _ Hq [-> | (Hc & _)]; cbn [answer]; [|congruence].
        destruct Hq as [-> | Hq]; [reflexivity | exact Hq].
      * intros l q tail Hl Hc _. congruence.
    + apply Forall_forall. exact Hno.
    + rewrite E in E'. injection E' as <-. exact H2.
Qed.

(** No record is empty: each returned question has a text or at least one
    option. *)
Theorem quiz_records_not_empty {CT : CaseTables} (out : str) :
  exists qs,
    parse_quiz out = Ok qs /\
    Forall (fun q => question q <> [] \/ options q <> []) qs.
Proof.
  apply (parse_quiz_Forall _ (fun l => l <> [])).
  - apply quiz_step_Forall.
    + intros l Hl. left. exact Hl.
    + intros l q a _ _ _ _. right. cbn [options].
      destruct (options q); discriminate.
    + intros l q tail _ _ Hq. exact Hq.
  - eapply Forall_impl; [|apply nonempty_lines_good]. intros l [H _]. exact H.
Qed.

(** [/quiz] with text and a wrapper: the prompt embeds the first chunk of
    the text, or the first 3200 characters when the text is blank, in any
    case at most 3200 characters; the generator is asked once, with 512
    tokens; its error is passed on as it is, and every generated text
    yields a response. *)
Theorem quiz_endpoint_prompt {CT : CaseTables} (llama : generator)
  (payload : Dict) :
  let full_text := dict_get payload (lit "text") [] in
  full_text <> [] ->
  exists chunks content,
    Chunker.simple_chunk_text full_text 3200 = Some chunks /\
    content = match chunks with
              | c :: _ => c
              | [] => slice full_text 0 3200
              end /\
    len content <= 3200 /\
    quiz_endpoint (Ok llama) payload
    = Some (match llama (QUIZ_PROMPT content) 512 with
            | Ok out => quiz_response out
            | Raise e => Raise e
            end) /\
    forall out, exists r, quiz_response out = Ok r.
Proof.
  intros full_text Hne.
  destruct (chunk_lengths full_text 3200 eq_refl) as (chunks & Ec & Hlen).
  exists chunks. eexists. split; [exact Ec|]. split; [reflexivity|].
  split; [|split].
  - destruct chunks as [|c rest].
    + apply slice_prefix_length. lia.
    + now inversion Hlen.
  - unfold quiz_endpoint. fold full_text.
    destruct full_text as [|c t] eqn:Et; [congruence|]. cbn [is_empty].
    rewrite Ec. reflexivity.
  - intros out. unfold quiz_response.
    rewrite parse_quiz_fold. cbn [bind].
    destruct (all_questions _); eauto.
Qed.

End QuizExtras.

Lemma quiz_endpoint_prompt_witness :
  let full_text := App.dict_get (App.text_payload (lit "notes")) (lit "text") [] in
  full_text <> [] /\
  exists chunks content,
    Chunker.simple_chunk_text full_text 3200 = Some chunks /\
    content = match chunks with
              | c :: _ => c
              | [] => slice full_text 0 3200
              end /\
    len content <= 3200 /\
    @App.quiz_endpoint ascii_case (Ok Samples.failing_generator)
      (App.text_payload (lit "notes"))
    = Some (match Samples.failing_generator (App.QUIZ_PROMPT content) 512 with
            | Ok out => @App.quiz_response ascii_case out
            | Raise e => Raise e
            end) /\
    forall out, exists r, @App.quiz_response ascii_case out = Ok r.
Proof.
  split; [discriminate|].
  apply (@quiz_endpoint_prompt ascii_case Samples.failing_generator
           (App.text_payload (lit "notes"))).
  discriminate.
Defined.

(** ** Extraction and upload *)

Section ExtractorFacts.
Import Extractors.

Lemma join_nil_iff (sep : str) (parts : list str) :
  Forall (fun part => part <> []) parts ->
  (join sep parts = [] <-> parts = []).
Proof.
  intros H. split; [|intros ->; reflexivity].
  destruct H as [|x r Hx _]; [reflexivity|].
  destruct x as [|c x]; [congruence|].
  destruct r; discriminate.
Qed.

Lemma filter_nil_iff (A : Type) (f : A -> bool) (l : list A) :
  filter f l = [] <-> forallb (fun x => negb (f x)) l = true.
Proof.
  induction l as [|x l IH]; simpl; [tauto|].
  destruct (f x); simpl; [split; discriminate | exact IH].
Qed.

(** The suffix, when there is one, is the last full stop of the name and
    what follows it; something stands before the full stop and something
    after it. *)
Lemma path_suffix_shape (path : str) :
  path_suffix path <> [] ->
  exists stem ext,
    path_name path = stem ++ [46%N] ++ ext /\
    path_suffix path = [46%N] ++ ext /\
    stem <> [] /\ ext <> [] /\ ~ In 46%N ext.
Proof.
  unfold path_suffix. set (name := path_name path).
  change (lit ".") with [46%N].
  destruct (rfind_spec name 46 0 (len name)) as [(E & _) | (Hr & Hat & Hno)];
    [lia | unfold len; lia | rewrite E; simpl; congruence |].
  set (i := rfind name [46%N] 0 (len name)) in *.
  destruct (Z.ltb_spec 0 i) as [Hi|]; [|simpl; congruence].
  destruct (Z.ltb_spec i (len name - 1)) as [Hi2|]; [|simpl; congruence].
  cbn [andb]. intros _.
  assert (Es : slice name i (len name) = skipn (Z.to_nat i) name).
  { unfold slice. rewrite !adjust_slice_id by lia.
    apply firstn_all2. rewrite length_skipn. unfold len. lia. }
  unfold char_at in Hat. rewrite <- hd_error_skipn in Hat.
  destruct (skipn (Z.to_nat i) name) as [|c ext] eqn:Ek; [discriminate|].
  injection Hat as ->.
  exists (firstn (Z.to_nat i) name), ext. rewrite Es.
  assert (Hlen : length (skipn (Z.to_nat i) name)
                 = (length name - Z.to_nat i)%nat) by apply length_skipn.
  rewrite Ek in Hlen. cbn [length] in Hlen. unfold len in *.
  split; [|split; [reflexivity|split; [|split]]].
  - change ([46%N] ++ ext) with (46%N :: ext).
    rewrite <- Ek. symmetry. apply firstn_skipn.
  - intros E0. apply (f_equal (@length N)) in E0.
    rewrite length_firstn in E0. simpl in E0. lia.
  - destruct ext; [simpl in Hlen; lia | discriminate].
  - intros Hin. apply In_nth_error in Hin. destruct Hin as (k & Hk).
    apply (Hno (i + 1 + Z.of_nat k)).
    + assert (k < length ext)%nat by (apply nth_error_Some; congruence).
      lia.
    + unfold char_at.
      replace (Z.to_nat (i + 1 + Z.of_nat k)) with (Z.to_nat i + S k)%nat
        by lia.
      rewrite <- nth_error_skipn, Ek. exact Hk.
Qed.

(** A file name is taken by the upload handler and by the extractor only
    when its last component has an extension: something before its last
    full stop and something after it.  A name such as [.pdf], [pdf] or
    [notes.] has the empty suffix and is turned away.  The case tables are
    asked to map the empty string to itself. *)
Theorem accepted_name_has_extension {CT : CaseTables} (file_filename : str) :
  lower [] = [] ->
  str_in (lower (path_suffix file_filename))
    [lit ".pdf"; lit ".docx"; lit ".txt"] = true ->
  exists stem ext,
    path_name file_filename = stem ++ [46%N] ++ ext /\
    path_suffix file_filename = [46%N] ++ ext /\
    stem <> [] /\ ext <> [] /\ ~ In 46%N ext.
Proof.
  intros Hlow Hacc. apply path_suffix_shape. intros E.
  rewrite E, Hlow in Hacc. discriminate.
Qed.

Lemma accepted_name_has_extension_witness :
  @lower ascii_case [] = [] /\
  str_in (@lower ascii_case (path_suffix (lit "uploads/notes.v2.PDF")))
    [lit ".pdf"; lit ".docx"; lit ".txt"] = true /\
  exists stem ext,
    path_name (lit "uploads/notes.v2.PDF") = stem ++ [46%N] ++ ext /\
    path_suffix (lit "uploads/notes.v2.PDF") = [46%N] ++ ext /\
    stem <> [] /\ ext <> [] /\ ~ In 46%N ext.
Proof.
  split; [reflexivity|]. split; [reflexivity|].
  apply (@accepted_name_has_extension ascii_case
           (lit "uploads/notes.v2.PDF")); reflexivity.
Defined.

(** Names without an extension are turned away with HTTP 400. *)
Example dotfile_is_rejected :
  @Service.upload_file Samples.some_http_str ascii_case true
    Samples.some_readers (fun _ => Ok (lit "/tmp/t")) (lit ".pdf")
  = Raise (HTTPException 400
             (lit "Unsupported file type. Use PDF, DOCX, or TXT.")).
Proof. reflexivity. Qed.

(** A Word document gives the empty text exactly when every paragraph is
    blank. *)
Theorem docx_text_empty_iff_blank (readers : Readers)
  (path : str) (paragraphs : list str) :
  document_paragraphs readers path = Ok paragraphs ->
  exists text,
    extract_text_from_docx readers path = Ok text /\
    (text = [] <-> Forall (fun t => strip t = []) paragraphs).
Proof.
  intros E. unfold extract_text_from_docx. rewrite E. cbn [bind].
  eexists. split; [reflexivity|].
  rewrite join_nil_iff.
  - rewrite filter_nil_iff, forallb_forall, Forall_forall.
    split; intros H t Ht; specialize (H t Ht).
    + destruct t as [|c t]; [reflexivity|]. cbn [is_empty negb andb] in H.
      apply negb_true_iff in H. apply negb_false_iff in H.
      now apply is_empty_nil.
    + rewrite H. cbn [is_empty negb]. now rewrite andb_false_r.
  - apply Forall_forall. intros t Ht. apply filter_In in Ht.
    destruct Ht as [_ Ht]. destruct t; [discriminate | discriminate].
Qed.

Lemma docx_text_empty_iff_blank_witness :
  Extractors.document_paragraphs Samples.some_readers (lit "/tmp/x.docx")
  = Ok [lit "One"; lit "  "; lit "Two"] /\
  exists text,
    extract_text_from_docx Samples.some_readers (lit "/tmp/x.docx")
    = Ok text /\
    (text = [] <->
     Forall (fun t => strip t = []) [lit "One"; lit "  "; lit "Two"]).
Proof.
  split; [reflexivity|].
  apply (docx_text_empty_iff_blank Samples.some_readers (lit "/tmp/x.docx")).
  reflexivity.
Defined.

End ExtractorFacts.

Section UploadFacts.
Import Extractors Service Samples.

Variable http_str : Z -> str -> str.

Lemma pdf_or_fallback_same (readers : Readers) (path : str) :
  extract_text_from_pdf_or_fallback readers path
  = extract_text_from_pdf readers path.
Proof.
  unfold extract_text_from_pdf_or_fallback.
  destruct (extract_text_from_pdf readers path); reflexivity.
Qed.

(** The suffix test of the upload handler and the dispatch of the extractor
    agree.  For a suffix outside the three, the extractor raises its
    unsupported-type error whatever the file holds, and the handler answers
    HTTP 400 before anything is stored or read; for a suffix among the
    three, the extractor hands the file to the reader of that suffix and
    its own unsupported-type branch is not taken. *)
Theorem upload_suffix_checks_agree {CT : CaseTables} (readers : Readers)
  (store : str -> result str) (file_filename : str) :
  let suffix := lower (path_suffix file_filename) in
  (str_in suffix [lit ".pdf"; lit ".docx"; lit ".txt"] = false ->
   (forall tmp_path,
      extract_text_from_uploaded_file readers tmp_path file_filename
      = Raise (ValueError (lit "Unsupported file type. Use PDF, DOCX or TXT.")))
   /\
   upload_file http_str true readers store file_filename
   = Raise (HTTPException 400
              (lit "Unsupported file type. Use PDF, DOCX, or TXT."))) /\
  (str_in suffix [lit ".pdf"; lit ".docx"; lit ".txt"] = true ->
   forall tmp_path,
     extract_text_from_uploaded_file readers tmp_path file_filename
     = if str_eqb suffix (lit ".pdf")
       then extract_text_from_pdf readers tmp_path
       else if str_eqb suffix (lit ".docx")
            then extract_text_from_docx readers tmp_path
            else read_text readers tmp_path).
Proof.
  intros suffix. unfold upload_file, extract_text_from_uploaded_file.
  fold suffix. unfold str_in. cbn [existsb negb].
  destruct (str_eqb suffix (lit ".pdf")); cbn [orb].
  - split; [discriminate|]. intros _ tmp_path. apply pdf_or_fallback_same.
  - destruct (str_eqb suffix (lit ".docx")); cbn [orb].
    + split; [discriminate | reflexivity].
    + destruct (str_eqb suffix (lit ".txt")); cbn [orb].
      * split; [discriminate | reflexivity].
      * split; [split; reflexivity | discriminate].
Qed.

(** What [/upload] gives back.  It raises nothing but HTTP errors, 400 or
    500; a response carries the name that came in, the text the extractor
    returned for the stored file, its length, and as preview its first 2000
    characters at most. *)
Theorem upload_file_outcome {CT : CaseTables} (extractor_imported : bool)
  (readers : Readers) (store : str -> result str) (file_filename : str) :
  (forall e,
     upload_file http_str extractor_imported readers store file_filename
     = Raise e ->
     exists status_code detail,
       e = HTTPException status_code detail /\
       (status_code = 400 \/ status_code = 500)) /\
  (forall r,
     upload_file http_str extractor_imported readers store file_filename
     = Ok r ->
     filename r = file_filename /\
     text_length r = len (text r) /\
     text_preview r = slice (text r) 0 2000 /\
     len (text_preview r) <= 2000 /\
     exists tmp_path,
       store (lower (path_suffix file_filename)) = Ok tmp_path /\
       extract_text_from_uploaded_file readers tmp_path file_filename
       = Ok (text r)).
Proof.
  unfold upload_file.
  destruct extractor_imported; cbn [negb];
    [|split; [intros e H; injection H as <-; eauto | discriminate]].
  destruct (str_in _ _); cbn [negb];
    [|split; [intros e H; injection H as <-; eauto | discriminate]].
  destruct (store (lower (path_suffix file_filename))) as [tmp_path|e0];
    cbn [bind];
    [|split; [intros e H; injection H as <-; eauto | discriminate]].
  destruct (extract_text_from_uploaded_file readers tmp_path file_filename)
    as [t|e0] eqn:Ex;
    [|split; [intros e H; injection H as <-; eauto | discriminate]].
  split; [discriminate|].
  intros r H. injection H as <-. cbn [filename text_length text_preview text].
  repeat split; [apply slice_prefix_length; lia|].
  exists tmp_path. split; [reflexivity | exact Ex].
Qed.

End UploadFacts.

Section UploadWitnesses.
Import Extractors Service Samples.

Lemma upload_suffix_checks_agree_witness :
  let suffix := @lower ascii_case (path_suffix (lit "Notes.PDF")) in
  (str_in suffix [lit ".pdf"; lit ".docx"; lit ".txt"] = false ->
   (forall tmp_path,
      @extract_text_from_uploaded_file ascii_case some_readers tmp_path
        (lit "Notes.PDF")
      = Raise (ValueError (lit "Unsupported file type. Use PDF, DOCX or TXT.")))
   /\
   @upload_file some_http_str ascii_case true some_readers
     (fun _ => Ok (lit "/tmp/t")) (lit "Notes.PDF")
   = Raise (HTTPException 400
              (lit "Unsupported file type. Use PDF, DOCX, or TXT."))) /\
  (str_in suffix [lit ".pdf"; lit ".docx"; lit ".txt"] = true ->
   forall tmp_path,
     @extract_text_from_uploaded_file ascii_case some_readers tmp_path
       (lit "Notes.PDF")
     = if str_eqb suffix (lit ".pdf")
       then extract_text_from_pdf some_readers tmp_path
       else if str_eqb suffix (lit ".docx")
            then extract_text_from_docx some_readers tmp_path
            else read_text some_readers tmp_path).
Proof.
  exact (@upload_suffix_checks_agree some_http_str ascii_case some_readers
           (fun _ => Ok (lit "/tmp/t")) (lit "Notes.PDF")).
Defined.

Lemma upload_file_outcome_witness :
  @upload_file some_http_str ascii_case true some_readers
    (fun _ => Ok (lit "/tmp/t")) (lit "a/notes.docx")
  = Ok {| filename := lit "a/notes.docx"; text_length := 7;
          text_preview := lit "One" ++ [10%N] ++ lit "Two";
          text := lit "One" ++ [10%N] ++ lit "Two" |} /\
  @upload_file some_http_str ascii_case true some_readers
    (fun _ => Raise (RuntimeError (lit "disk full"))) (lit "a/notes.docx")
  = Raise (HTTPException 500 (lit "Extraction error: disk full")) /\
  (forall e,
     @upload_file some_http_str ascii_case true some_readers
       (fun _ => Ok (lit "/tmp/t")) (lit ".pdf") = Raise e ->
     exists status_code detail,
       e = HTTPException status_code detail /\
       (status_code = 400 \/ status_code = 500)).
Proof.
  split; [reflexivity|]. split; [reflexivity|].
  exact (proj1 (@upload_file_outcome some_http_str ascii_case true
                  some_readers (fun _ => Ok (lit "/tmp/t")) (lit ".pdf"))).
Defined.

End UploadWitnesses.

(** ** When the text stays in one piece *)

Section SingleChunk.

Lemma strip_by_fixed (p : N -> bool) (s : str) :
  trimmed p s -> strip_by p s = s.
Proof.
  intros [Hh Hl]. unfold strip_by, lstrip_by, rstrip_by.
  assert (E : dropwhile p s = s).
  { destruct s as [|c r]; [reflexivity|]. simpl. now rewrite Hh. }
  rewrite E.
  assert (E' : dropwhile p (rev s) = rev s).
  { destruct (rev s) as [|c r]; [reflexivity|]. simpl. now rewrite Hl. }
  rewrite E'. apply rev_involutive.
Qed.

Lemma chain_closed (lo : Z) (bs : list (Z * Z)) : chain lo bs lo -> bs = [].
Proof.
  intros C. inversion C as [|a mid hi bs' Hlt C']; subst; [reflexivity|].
  apply chain_le in C'. lia.
Qed.

(** The trimmed text comes back as one chunk exactly when it fits in the
    window and holds no line break and no full stop after its first
    character.  So a short text that ends with a full stop is cut in two
    at that full stop. *)
Theorem single_chunk_iff (text : str) (max_chars : Z) :
  0 < max_chars -> strip text <> [] ->
  (simple_chunk_text text max_chars = Some [strip text] <->
   len (strip text) <= max_chars /\
   forall j, 0 < j < len (strip text) ->
             ~ char_at (strip text) j 10 /\ ~ char_at (strip text) j 46).
Proof.
  intros Hm Hne. set (t := strip text) in *.
  destruct (simple_chunk_steps text max_chars Hm) as (bs & _ & E & C & Hs).
  fold t in E, C, Hs.
  assert (HL : 0 < len t).
  { unfold len. destruct t; [congruence | simpl; lia]. }
  destruct bs as [|[a b] rest];
    [inversion C; lia|].
  inversion C as [|a' mid hi bs' Hlt C']; subst.
  inversion Hs as [|x l [Ha Hb] Hrest]; subst. cbn [fst snd] in *.
  pose proof (split_point_choice t max_chars Hm 0 Ha) as Hcut.
  cbv zeta in Hcut. rewrite Z.add_0_l in Hcut.
  rewrite <- Hb in Hcut.
  assert (Hwhole : strip (slice t 0 (len t)) = t).
  { rewrite slice_full. apply strip_by_fixed. apply strip_by_trimmed. }
  rewrite E. split.
  - intros H. injection H as H1 H2.
    destruct rest; [|discriminate]. inversion C'; subst.
    destruct Hcut as [(Hb1 & _) | [(_ & Hb1 & _) | (Hno & Hb1)]]; try lia.
    assert (len t <= max_chars) by lia.
    split; [assumption|]. intros j Hj. apply Hno. lia.
  - intros [Hfit Hno].
    assert (Hb1 : b = len t).
    { destruct Hcut as [(Hb1 & Hat & _) | [(_ & Hb1 & Hat & _) | (_ & Hb1)]].
      - exfalso. apply (proj1 (Hno b ltac:(lia))). exact Hat.
      - exfalso. apply (proj2 (Hno b ltac:(lia))). exact Hat.
      - lia. }
    rewrite Hb1 in C'. apply chain_closed in C'. subst rest.
    cbn [map]. unfold chunk_of. cbn [fst snd]. rewrite Hb1, Hwhole.
    reflexivity.
Qed.

Lemma single_chunk_iff_witness :
  0 < 3200 /\ strip (lit " Hello world ") <> [] /\
  (simple_chunk_text (lit " Hello world ") 3200
   = Some [strip (lit " Hello world ")] <->
   len (strip (lit " Hello world ")) <= 3200 /\
   forall j, 0 < j < len (strip (lit " Hello world ")) ->
             ~ char_at (strip (lit " Hello world ")) j 10 /\
             ~ char_at (strip (lit " Hello world ")) j 46).
Proof.
  split; [lia|]. split; [discriminate|].
  apply (single_chunk_iff (lit " Hello world ") 3200); [lia | discriminate].
Defined.

(** The sentence [Hello.] within the endpoints' window: two chunks. *)
Example short_sentence_is_cut :
  simple_chunk_text (lit "Hello.") 3200 = Some [lit "Hello"; lit "."].
Proof. reflexivity. Qed.

End SingleChunk.
